(** * TiProxy: the SQL server's connection registry, the admin HTTP surface,
    and the backend connection manager.

  The development follows the repository:
  - [Uint64]       Go's [uint64] arithmetic (wrap-around written out);
  - [SQLServer]    [serverState], [onConn], [Run] and [Close] of the proxy's
                   SQL server, as a labelled transition system in which
                   every goroutine of [onConn] has its own place in the code;
  - [HttpApi]      the gin handlers, the route table and the life cycle of
                   the admin HTTP API, with gin's basic authentication;
  - [Backend]      the backend connection manager (handshake, second
                   handshake, redirection), whose code is outside the
                   files at hand and is modelled from the specification;
  - [BackendTests] the configurations built by the tests of the backend
                   package. *)

From Stdlib Require Import ZArith List Ascii String Lia Bool.
From stdpp Require Import gmap strings list fin_maps.

(** ** Go's [uint64] *)

Module Uint64.

Definition modulus : Z := 18446744073709551616%Z.

(** Arithmetic on [uint64] is modulo [2^64]. *)
Definition wrap (z : Z) : Z := (z mod modulus)%Z.

(** [x++] on a [uint64]. *)
Definition incr (x : Z) : Z := wrap (x + 1).

End Uint64.

(** ** The SQL server: registry, admission, shutdown *)

Module SQLServer.

Import Uint64.

(** A [net.Conn] handed out by [listener.Accept()], identified by a token. *)
Definition Conn := nat.

(** The value built by [client.NewClientConnection(logger, conn, ...,
    backend.NewBackendConnManager(connID))]: what the server knows of it is
    the socket it owns and the id its backend manager was created with. *)
Record ClientConnection := NewClientConnection {
  cc_conn : Conn;
  cc_connID : Z
}.

Arguments NewClientConnection cc_conn%_nat cc_connID%_Z.

#[global] Instance ClientConnection_eq_dec : EqDecision ClientConnection.
Proof. solve_decision. Defined.

(** [serverState]: the fields guarded by [s.mu]. *)
Record serverState := mkServerState {
  tcpKeepAlive : bool;
  connID : Z;
  maxConnections : Z;
  clients : gmap Z ClientConnection
}.

(** What the server does to the outside world. *)
Inductive action :=
| MuLock
| MuUnlock
| MapStore (id : Z) (cc : ClientConnection)   (* s.mu.clients[connID] = clientConn *)
| MapDelete (id : Z)                          (* delete(s.mu.clients, connID) *)
| ListenerClose
| SockClose (c : Conn)                  (* conn.Close() on the raw socket *)
| SetKeepAlive (c : Conn)               (* tcpConn.SetKeepAlive(true) *)
| ClientRun (cc : ClientConnection)     (* clientConn.Run(ctx): the protocol *)
| ClientClose (cc : ClientConnection)   (* clientConn.Close() *)
| WgAdd
| WgDone
| CloseReturns (res : option (string * list string)).   (* [Close] returns *)

Arguments SockClose c%_nat.
Arguments SetKeepAlive c%_nat.

#[global] Instance action_eq_dec : EqDecision action.
Proof. solve_decision. Defined.

(** The only action that puts protocol bytes on a client socket is the
    client connection's [Run] (handshake and command phase). *)
Definition writes_protocol_bytes (a : action) : bool :=
  match a with ClientRun _ => true | _ => false end.

Inductive admission :=
| Rejected
| Registered (id : Z) (cc : ClientConnection).

(** [onConn], lines 110-127: the section between [s.mu.Lock()] and the
    matching [s.mu.Unlock()], together with what the rejected branch does
    before it returns. [uint64(len(s.mu.clients))] is the conversion of a
    non-negative [int]. *)
Definition onConn_enter (conn : Conn) (mu : serverState)
  : serverState * admission * list action :=
  let conns := wrap (Z.of_nat (size (clients mu))) in
  let maxConns := maxConnections mu in
  if negb (maxConns =? 0)%Z && (maxConns <=? conns)%Z then
    (mu, Rejected, [MuLock; MuUnlock; SockClose conn])
  else
    let id := connID mu in
    let clientConn := NewClientConnection conn id in
    (mkServerState (tcpKeepAlive mu) (incr id) (maxConnections mu)
                   (<[id := clientConn]> (clients mu)),
     Registered id clientConn,
     [MuLock; MapStore id clientConn; MuUnlock]).

(** [onConn], lines 141-149: after registration the handler sets the
    keep-alive option when configured (a socket accepted by the tcp listener
    is a [*net.TCPConn]) and runs the client connection. *)
Definition onConn_serve (keepAlive : bool) (clientConn : ClientConnection)
  : list action :=
  (if keepAlive then [SetKeepAlive (cc_conn clientConn)] else [])
    ++ [ClientRun clientConn].

(** [onConn], lines 133-135: the critical section of the deferred function,
    run when [clientConn.Run] has returned. *)
Definition onConn_deferred (id : Z) (mu : serverState)
  : serverState * list action :=
  (mkServerState (tcpKeepAlive mu) (connID mu) (maxConnections mu)
                 (delete id (clients mu)),
   [MuLock; MapDelete id; MuUnlock]).

(** [onConn], lines 137-138: the rest of the deferred function, after which
    the handler is gone. *)
Definition onConn_deferred_close (clientConn : ClientConnection)
  : list action :=
  [ClientClose clientConn].

(** Errors are carried as their messages. *)
Definition error := string.

(** [ErrCloseServer] is declared elsewhere in the package; only its identity
    matters here. *)
Definition ErrCloseServer : error := "ErrCloseServer"%string.

(** Modelled from the spec: [errors.Collect] of [pkg/util/errors] is not
    among the files; the specification has shutdown return an aggregated
    error if any individual close failed, so [Collect] is [nil] on no
    underlying error and the tagged collection otherwise. *)
Definition Collect (cerr : error) (errs : list error)
  : option (error * list error) :=
  match errs with
  | [] => None
  | _ => Some (cerr, errs)
  end.

(** [Close], lines 154-159. *)
Definition Close_listener (hasListener : bool) (closeErr : option error)
  : list error * list action :=
  if hasListener then
    (match closeErr with Some e => [e] | None => [] end, [ListenerClose])
  else ([], []).

(** [Close], lines 162-166: the loop over the registered connections, in
    the order [cs] in which the map is ranged over. [result] is what each
    [conn.Close()] returns. *)
Fixpoint Close_clients (result : ClientConnection -> option error)
         (cs : list ClientConnection) (errs : list error)
  : list error * list action :=
  match cs with
  | [] => (errs, [])
  | c :: cs' =>
      let errs' := match result c with
                   | Some e => errs ++ [e]
                   | None => errs
                   end in
      let '(errs'', acts) := Close_clients result cs' errs' in
      (errs'', ClientClose c :: acts)
  end.

(** *** The server as a transition system

    One goroutine runs [Run], one per accepted connection runs [onConn],
    and some goroutine calls [Close]. A step of a goroutine is one access to
    what the goroutines share (a critical section of [s.mu], the wait group,
    the listener), with the code of its own that it runs up to the next
    one. *)

Inductive acceptor :=
| AccLoop                      (* in the [for], before [Accept] *)
| AccPending (c : Conn)        (* [Accept] returned [c], line 102 not yet run *)
| AccReturned.                 (* [Run] has returned *)

Inductive closer :=
| ClNotCalled
| ClListenerClosed (errs : list error)   (* after line 159 *)
| ClWaiting (errs : list error)          (* after line 167, in [s.wg.Wait()] *)
| ClReturned (res : option (error * list error)).

(** Where the goroutine of one accepted connection stands in [onConn]. *)
Inductive handler :=
| Started (conn : Conn)        (* started by line 102, before line 110 *)
| Refused (conn : Conn)        (* lines 117-119 done, at the [return] of line 120 *)
| Listed (keepAlive : bool) (id : Z) (cc : ClientConnection)
                               (* after line 127, with the [tcpKeepAlive] read
                                  at line 113, before line 141 *)
| Serving (id : Z) (cc : ClientConnection)
                               (* inside [clientConn.Run], line 149 *)
| Leaving (id : Z) (cc : ClientConnection).
                               (* in the deferred function, after line 135 *)

Arguments Started conn%_nat.
Arguments Refused conn%_nat.

Record world := mkWorld {
  mu : serverState;
  listenerOpen : bool;
  wg : nat;                     (* s.wg: handlers started and not yet done *)
  runLoop : acceptor;
  handlers : list handler;      (* the goroutines running [onConn] *)
  closing : closer;
  issued : list Z               (* ids handed out, oldest first *)
}.

Inductive label :=
| Accept (c : Conn)                 (* line 92 returns a connection *)
| AcceptFail                        (* line 92 returns an error, [Run] returns *)
| CtxDone                           (* lines 88-90 *)
| Spawn                             (* line 102: s.wg.Run(onConn) *)
| Enter (i : nat)                   (* handler i runs lines 110-127 *)
| Serve (i : nat)                   (* handler i runs lines 129-149 and is in
                                       [clientConn.Run] *)
| Leave (i : nat)                   (* [clientConn.Run] of handler i returns;
                                       lines 133-135 *)
| Exit (i : nat)                    (* handler i runs what is left and returns:
                                       the wait group is told *)
| CloseListener (err : option error)
| CloseClients (result : ClientConnection -> option error)
| CloseWait.                        (* lines 169-172 *)

Arguments Accept c%_nat.

(** [NewSQLServer]: counter at 0 and an empty registry. [cfg.MaxConnections]
    is a [uint64]. *)
Definition NewSQLServer (cfgKeepAlive : bool) (cfgMaxConnections : Z) : world :=
  mkWorld (mkServerState cfgKeepAlive 0 (wrap cfgMaxConnections) ∅)
          true 0 AccLoop [] ClNotCalled [].

Definition step (l : label) (w : world) : option (world * list action) :=
  match l with
  | Accept c =>
      match runLoop w with
      | AccLoop =>
          if listenerOpen w then
            Some (mkWorld (mu w) (listenerOpen w) (wg w) (AccPending c)
                          (handlers w) (closing w) (issued w), [])
          else None
      | _ => None
      end
  | AcceptFail =>
      match runLoop w with
      | AccLoop =>
          Some (mkWorld (mu w) (listenerOpen w) (wg w) AccReturned
                        (handlers w) (closing w) (issued w), [])
      | _ => None
      end
  | CtxDone =>
      match runLoop w, wg w with
      | AccLoop, O =>
          Some (mkWorld (mu w) (listenerOpen w) (wg w) AccReturned
                        (handlers w) (closing w) (issued w), [])
      | _, _ => None
      end
  | Spawn =>
      match runLoop w with
      | AccPending c =>
          Some (mkWorld (mu w) (listenerOpen w) (S (wg w)) AccLoop
                        (Started c :: handlers w) (closing w) (issued w),
                [WgAdd])
      | _ => None
      end
  | Enter i =>
      match handlers w !! i with
      | Some (Started c) =>
          match onConn_enter c (mu w) with
          | (mu', Rejected, acts) =>
              Some (mkWorld mu' (listenerOpen w) (wg w) (runLoop w)
                            (<[i := Refused c]> (handlers w)) (closing w)
                            (issued w),
                    acts)
          | (mu', Registered id cc, acts) =>
              Some (mkWorld mu' (listenerOpen w) (wg w) (runLoop w)
                            (<[i := Listed (tcpKeepAlive (mu w)) id cc]>
                               (handlers w))
                            (closing w) (issued w ++ [id]),
                    acts)
          end
      | _ => None
      end
  | Serve i =>
      match handlers w !! i with
      | Some (Listed keepAlive id cc) =>
          Some (mkWorld (mu w) (listenerOpen w) (wg w) (runLoop w)
                        (<[i := Serving id cc]> (handlers w)) (closing w)
                        (issued w),
                onConn_serve keepAlive cc)
      | _ => None
      end
  | Leave i =>
      match handlers w !! i with
      | Some (Serving id cc) =>
          let '(mu', acts) := onConn_deferred id (mu w) in
          Some (mkWorld mu' (listenerOpen w) (wg w) (runLoop w)
                        (<[i := Leaving id cc]> (handlers w)) (closing w)
                        (issued w),
                acts)
      | _ => None
      end
  | Exit i =>
      match handlers w !! i with
      | Some (Refused c) =>
          Some (mkWorld (mu w) (listenerOpen w) (pred (wg w)) (runLoop w)
                        (delete i (handlers w)) (closing w) (issued w),
                [WgDone])
      | Some (Leaving id cc) =>
          Some (mkWorld (mu w) (listenerOpen w) (pred (wg w)) (runLoop w)
                        (delete i (handlers w)) (closing w) (issued w),
                onConn_deferred_close cc ++ [WgDone])
      | _ => None
      end
  | CloseListener err =>
      match closing w with
      | ClNotCalled =>
          let '(errs, acts) := Close_listener true err in
          Some (mkWorld (mu w) false (wg w) (runLoop w) (handlers w)
                        (ClListenerClosed errs) (issued w), acts)
      | _ => None
      end
  | CloseClients result =>
      match closing w with
      | ClListenerClosed errs =>
          let '(errs', acts) :=
            Close_clients result (snd <$> map_to_list (clients (mu w))) errs in
          Some (mkWorld (mu w) (listenerOpen w) (wg w) (runLoop w) (handlers w)
                        (ClWaiting errs') (issued w),
                [MuLock] ++ acts ++ [MuUnlock])
      | _ => None
      end
  | CloseWait =>
      match closing w, wg w with
      | ClWaiting errs, O =>
          Some (mkWorld (mu w) (listenerOpen w) (wg w) (runLoop w) (handlers w)
                        (ClReturned (Collect ErrCloseServer errs))
                        (issued w),
                [CloseReturns (Collect ErrCloseServer errs)])
      | _, _ => None
      end
  end.

(** Running a schedule, with the actions it performs in order. *)
Fixpoint exec (ls : list label) (w : world) : option (world * list action) :=
  match ls with
  | [] => Some (w, [])
  | l :: ls' =>
      match step l w with
      | Some (w', acts) =>
          match exec ls' w' with
          | Some (w'', acts') => Some (w'', acts ++ acts')
          | None => None
          end
      | None => None
      end
  end.

Definition reachable_from (w0 w : world) : Prop :=
  exists ls acts, exec ls w0 = Some (w, acts).

Definition reachable (keepAlive : bool) (maxConns : Z) (w : world) : Prop :=
  reachable_from (NewSQLServer keepAlive maxConns) w.

(** What the handlers hold: the connection a handler has registered and
    not yet deleted, the id a handler was given, and whether its
    [clientConn.Run] is under way. *)
Definition registration (h : handler) : option (Z * ClientConnection) :=
  match h with
  | Listed _ id cc | Serving id cc => Some (id, cc)
  | _ => None
  end.

Definition handler_id (h : handler) : option Z :=
  match h with
  | Listed _ id _ | Serving id _ | Leaving id _ => Some id
  | _ => None
  end.

Definition in_Run (h : handler) : option (Z * ClientConnection) :=
  match h with
  | Serving id cc => Some (id, cc)
  | _ => None
  end.

(** The connections of the handlers between line 127 and line 133. *)
Definition registered (w : world) : list (Z * ClientConnection) :=
  omap registration (handlers w).

(** The connections whose [clientConn.Run] is under way. *)
Definition running (w : world) : list (Z * ClientConnection) :=
  omap in_Run (handlers w).

(** The ids of the registered connections whose handlers have not exited. *)
Definition handler_ids (w : world) : list Z := omap handler_id (handlers w).

(** The registered connections whose handlers have not exited. *)
Definition admission_of (h : handler) : option (Z * ClientConnection) :=
  match h with
  | Listed _ id cc | Serving id cc | Leaving id cc => Some (id, cc)
  | _ => None
  end.

Definition not_exited (w : world) : list (Z * ClientConnection) :=
  omap admission_of (handlers w).

(** A quiescent server with unlimited admission that has handed out [n] ids:
    registry [m], handlers [r], nobody between [Accept] and line 102. *)
Definition quiescent (keepAlive : bool) (m : gmap Z ClientConnection)
           (r : list handler) (n : Z) : world :=
  mkWorld (mkServerState keepAlive (wrap n) 0 m) true (length r) AccLoop
          r ClNotCalled (wrap <$> seqZ 0 n).

(** One connection that is accepted, served and gone. *)
Definition visit (c : Conn) : list label :=
  [Accept c; Spawn; Enter 0; Serve 0; Leave 0; Exit 0].

Fixpoint visits (k : nat) (c : Conn) : list label :=
  match k with
  | O => []
  | S k' => visit c ++ visits k' c
  end.

(** A server with [maxConnections = 2] on which two connections are being
    served. *)
Definition full_house : world :=
  mkWorld (mkServerState false 2 2
             (<[1%Z := NewClientConnection 8 1]>
                (<[0%Z := NewClientConnection 7 0]> ∅)))
          true 2 AccLoop
          [Serving 1 (NewClientConnection 8 1); Serving 0 (NewClientConnection 7 0)]
          ClNotCalled [0%Z; 1%Z].

Definition full_house_schedule : list label :=
  [Accept 7; Spawn; Enter 0; Serve 0; Accept 8; Spawn; Enter 0; Serve 0].

(** A server whose first connection (socket 7, id 0) has run its deferred
    delete and has not yet closed its [ClientConnection]. *)
Definition half_gone_schedule : list label :=
  [Accept 7; Spawn; Enter 0; Serve 0; Leave 0].

Definition half_gone : world :=
  mkWorld (mkServerState false 1 0 ∅) true 1 AccLoop
          [Leaving 0 (NewClientConnection 7 0)] ClNotCalled [0%Z].

(** A server with [maxConnections = 2] whose two connections have come and
    gone. *)
Definition after_hours_schedule : list label := visit 7 ++ visit 8.

Definition after_hours : world :=
  mkWorld (mkServerState false 2 2 ∅) true 0 AccLoop [] ClNotCalled [0%Z; 1%Z].

(** A server without limit whose first connection (socket 7, id 0) is still
    being served when the counter has gone once around. *)
Definition long_lived : world :=
  quiescent false {[ 0%Z := NewClientConnection 7 0 ]}
            [Serving 0 (NewClientConnection 7 0)] modulus.

Definition long_lived_schedule : list label :=
  [Accept 7; Spawn; Enter 0; Serve 0] ++ visits (Z.to_nat (modulus - 1)) 9.

(** What becomes of [long_lived] when one more connection (socket 8) is
    registered. *)
Definition id_reused_schedule : list label := [Accept 8; Spawn; Enter 0].

(** The schedule in which the whole of [Close] runs between line 92 and
    line 102 of [Run]. *)
Definition overtaking_schedule (c : Conn) : list label :=
  [Accept c; CloseListener None; CloseClients (fun _ => None); CloseWait;
   Spawn; Enter 0; Serve 0].

Arguments visit c%_nat.
Arguments visits k%_nat c%_nat.
Arguments overtaking_schedule c%_nat.

(** *** Invariants of the transition system *)

(** The discipline of [s.mu] along a trace: [Lock] and [Unlock] alternate,
    the registry is written only in between, and the trace ends with the
    lock released. *)
Fixpoint well_locked (held : bool) (acts : list action) : bool :=
  match acts with
  | [] => negb held
  | MuLock :: acts' => negb held && well_locked true acts'
  | MuUnlock :: acts' => held && well_locked false acts'
  | MapStore _ _ :: acts' => held && well_locked held acts'
  | MapDelete _ :: acts' => held && well_locked held acts'
  | _ :: acts' => well_locked held acts'
  end.

Local Open Scope Z_scope.

(** The registry respects the limit. *)
Definition within_limit (w : world) : Prop :=
  0 <= maxConnections (mu w) < modulus /\
  (maxConnections (mu w) <> 0 ->
   Z.of_nat (size (clients (mu w))) <= maxConnections (mu w)).

(** The counter and the ids handed out so far. *)
Definition ids_in_order (w : world) : Prop :=
  connID (mu w) = wrap (Z.of_nat (length (issued w))) /\
  issued w = wrap <$> seqZ 0 (Z.of_nat (length (issued w))).

(** The registry holds the connections of the handlers between line 127 and
    line 133, and the handlers that have not exited carry different ids, all
    handed out by the counter. *)
Definition registry_is_live (w : world) : Prop :=
  NoDup (handler_ids w) /\
  (forall id cc, clients (mu w) !! id = Some cc <-> (id, cc) ∈ registered w) /\
  (forall id, id ∈ handler_ids w -> id ∈ issued w).

Definition live_before_wrap (w : world) : Prop :=
  ids_in_order w /\
  (Z.of_nat (length (issued w)) <= modulus -> registry_is_live w).

(** The wait group counts the handlers that were started and have not
    returned. *)
Definition wg_counts_handlers (w : world) : Prop :=
  wg w = length (handlers w).

(** A handler past line 127 holds a connection created with the id it was
    given. *)
Definition handler_carries_id (h : handler) : Prop :=
  match h with
  | Listed _ id cc | Serving id cc | Leaving id cc => cc_connID cc = id
  | _ => True
  end.

(** Every registered connection sits under the id its backend manager was
    created with, and that id is a [uint64]. *)
Definition entries_carry_id (w : world) : Prop :=
  (forall id cc, clients (mu w) !! id = Some cc ->
                 cc_connID cc = id /\ 0 <= id < modulus) /\
  Forall handler_carries_id (handlers w).

(** [Run] will hand no further connection to a handler: it has returned, or
    it is before [Accept] on a closed listener. *)
Definition no_more_accepts (w : world) : Prop :=
  runLoop w = AccReturned \/ (listenerOpen w = false /\ runLoop w = AccLoop).

(** The steps that start, serve and end handlers (lines 102-150), as opposed
    to accepting a connection and to the steps of [Close]. *)
Definition handler_step (l : label) : bool :=
  match l with
  | Spawn | Enter _ | Serve _ | Leave _ | Exit _ => true
  | _ => false
  end.

(** The steps a handler has before it, at most. *)
Definition steps_left (h : handler) : nat :=
  match h with
  | Started _ => 4
  | Listed _ _ _ => 3
  | Serving _ _ => 2
  | Refused _ | Leaving _ _ => 1
  end.

Fixpoint all_steps_left (hs : list handler) : nat :=
  match hs with
  | [] => 0
  | h :: hs' => steps_left h + all_steps_left hs'
  end.

(** [full_house] after [Close] has closed the listener and both
    connections. *)
Definition closing_house : world :=
  mkWorld (mu full_house) false 2%nat AccLoop (handlers full_house)
          (ClWaiting []) (issued full_house).

End SQLServer.

(** ** The admin HTTP API ([pkg/proxy/api.go]) *)

Module HttpApi.

Local Open Scope string_scope.

(** [net/http] status codes. *)
Definition StatusOK : Z := 200.
Definition StatusBadRequest : Z := 400.
Definition StatusUnauthorized : Z := 401.
Definition StatusInternalServerError : Z := 500.

Definition ParamNamespace : string := "namespace".
Definition ParamBreaker : string := "breaker".

Record CommonJsonResp := mkCommonJsonResp {
  Code : Z;
  Msg : string
}.

(** The value [encoding/json] renders for a struct with the tags
    [json:"code"] and [json:"msg"]. *)
Inductive jvalue :=
| JInt (n : Z)
| JString (s : string).

(** A JSON object with scalar fields, in the order of the struct. *)
Definition json := list (string * jvalue).

Definition CommonJsonResp_json (r : CommonJsonResp) : json :=
  [("code", JInt (Code r)); ("msg", JString (Msg r))].

Definition CreateJsonResp (code : Z) (msg : string) : CommonJsonResp :=
  mkCommonJsonResp code msg.

Definition CreateSuccessJsonResp : CommonJsonResp :=
  mkCommonJsonResp StatusOK "success".

(** What has been written on the [gin.Context]. *)
Inductive response :=
| RespJSON (status : Z) (body : json)      (* c.JSON(status, obj) *)
| RespAbort (status : Z)                   (* c.AbortWithStatus(status) *)
| RespHeader (key value : string).         (* c.Header(key, value) *)

(** The HTTP status a call answers the request with, if it does. *)
Definition resp_status (r : response) : option Z :=
  match r with
  | RespJSON st _ => Some st
  | RespAbort st => Some st
  | RespHeader _ _ => None
  end.

(** A [gin.Context]: the path parameters of the matched route, the
    [Authorization] header of the request (empty when the request has
    none), the keys set on the context, and what has been written so far. *)
Record ginContext := mkContext {
  Params : list (string * string);
  Authorization : string;
  Keys : list (string * string);
  Written : list response
}.

(** [c.Param(key)]: the value of the first parameter named [key], or the
    empty string. *)
Fixpoint Param_in (ps : list (string * string)) (key : string) : string :=
  match ps with
  | [] => ""
  | (k, v) :: ps' => if (k =? key)%string then v else Param_in ps' key
  end.

Definition Param (c : ginContext) (key : string) : string :=
  Param_in (Params c) key.

Definition JSON (c : ginContext) (status : Z) (obj : CommonJsonResp) : ginContext :=
  mkContext (Params c) (Authorization c) (Keys c)
            (Written c ++ [RespJSON status (CommonJsonResp_json obj)]).

(** [c.Set(key, value)]. *)
Definition SetKey (c : ginContext) (key value : string) : ginContext :=
  mkContext (Params c) (Authorization c) ((key, value) :: Keys c) (Written c).

(** [c.Header(key, value)] followed by [c.AbortWithStatus(status)]. *)
Definition AbortWithHeader (c : ginContext) (key value : string) (status : Z)
  : ginContext :=
  mkContext (Params c) (Authorization c) (Keys c)
            (Written c ++ [RespHeader key value; RespAbort status]).

(** The one response of a handler: HTTP status 200 and a [CommonJsonResp]. *)
Definition answers (c c' : ginContext) (r : CommonJsonResp) : Prop :=
  Params c' = Params c /\
  Written c' = (Written c ++ [RespJSON StatusOK (CommonJsonResp_json r)])%list.

Definition bad_parameter : CommonJsonResp :=
  mkCommonJsonResp StatusBadRequest "bad namespace parameter".

Section Handlers.

(** The namespace manager and the config center are other packages; the
    handlers see them through these calls, each of which may change the
    manager and may return an error. *)
Context {Mgr NsCfg Err : Type}.
Variable RemoveNamespace : string -> Mgr -> Mgr.
Variable GetNamespace : string -> NsCfg + Err.
Variable PrepareReloadNamespace : string -> NsCfg -> Mgr -> Mgr * option Err.
Variable CommitReloadNamespaces : list string -> Mgr -> Mgr * option Err.
Variable RedirectConnections : Mgr -> Mgr * option Err.

Definition HandleRemoveNamespace (n : Mgr) (c : ginContext) : Mgr * ginContext :=
  let ns := Param c ParamNamespace in
  if (ns =? "")%string then
    (n, JSON c StatusOK (CreateJsonResp StatusBadRequest "bad namespace parameter"))
  else
    let n' := RemoveNamespace ns n in
    (n', JSON c StatusOK CreateSuccessJsonResp).

Definition HandlePrepareReload (n : Mgr) (c : ginContext) : Mgr * ginContext :=
  let ns := Param c ParamNamespace in
  if (ns =? "")%string then
    (n, JSON c StatusOK (CreateJsonResp StatusBadRequest "bad namespace parameter"))
  else
    match GetNamespace ns with
    | inr _ =>
        let errMsg := "get namespace value from configcenter error" in
        (n, JSON c StatusOK (CreateJsonResp StatusInternalServerError errMsg))
    | inl nscfg =>
        match PrepareReloadNamespace ns nscfg n with
        | (n', Some _) =>
            let errMsg := "prepare reload namespace error" in
            (n', JSON c StatusOK (CreateJsonResp StatusInternalServerError errMsg))
        | (n', None) =>
            (n', JSON c StatusOK CreateSuccessJsonResp)
        end
    end.

Definition HandleCommitReload (n : Mgr) (c : ginContext) : Mgr * ginContext :=
  let ns := Param c ParamNamespace in
  if (ns =? "")%string then
    (n, JSON c StatusOK (CreateJsonResp StatusBadRequest "bad namespace parameter"))
  else
    match CommitReloadNamespaces [ns] n with
    | (n', Some _) =>
        let errMsg := "commit reload namespace error" in
        (n', JSON c StatusOK (CreateJsonResp StatusInternalServerError errMsg))
    | (n', None) =>
        (n', JSON c StatusOK CreateSuccessJsonResp)
    end.

(** [TestHttpHandler.Redirect]. *)
Definition Redirect (n : Mgr) (c : ginContext) : Mgr * ginContext :=
  match RedirectConnections n with
  | (n', Some _) =>
      let errMsg := "redirect connections error" in
      (n', JSON c StatusOK (CreateJsonResp StatusInternalServerError errMsg))
  | (n', None) =>
      (n', JSON c StatusOK CreateSuccessJsonResp)
  end.

(** The routes registered by [AddHandlersToRouteGroup] on the namespace
    group, and the one on the test group. *)
Inductive route :=
| PostRemove            (* POST /admin/namespace/remove/:namespace *)
| PostPrepareReload     (* POST /admin/namespace/reload/prepare/:namespace *)
| PostCommitReload      (* POST /admin/namespace/reload/commit/:namespace *)
| PostTestRedirect.     (* POST /test/redirect *)

Definition route_handler (r : route) : Mgr -> ginContext -> Mgr * ginContext :=
  match r with
  | PostRemove => HandleRemoveNamespace
  | PostPrepareReload => HandlePrepareReload
  | PostCommitReload => HandleCommitReload
  | PostTestRedirect => Redirect
  end.

(** The application outcome of a request: what the [code] of the body says. *)
Definition outcome (r : route) (n : Mgr) (c : ginContext) : CommonJsonResp :=
  let ns := Param c ParamNamespace in
  match r with
  | PostRemove =>
      if (ns =? "")%string then bad_parameter else CreateSuccessJsonResp
  | PostPrepareReload =>
      if (ns =? "")%string then bad_parameter
      else match GetNamespace ns with
           | inr _ => mkCommonJsonResp StatusInternalServerError "get namespace value from configcenter error"
           | inl nscfg =>
               match snd (PrepareReloadNamespace ns nscfg n) with
               | Some _ => mkCommonJsonResp StatusInternalServerError "prepare reload namespace error"
               | None => CreateSuccessJsonResp
               end
           end
  | PostCommitReload =>
      if (ns =? "")%string then bad_parameter
      else match snd (CommitReloadNamespaces [ns] n) with
           | Some _ => mkCommonJsonResp StatusInternalServerError "commit reload namespace error"
           | None => CreateSuccessJsonResp
           end
  | PostTestRedirect =>
      match snd (RedirectConnections n) with
      | Some _ => mkCommonJsonResp StatusInternalServerError "redirect connections error"
      | None => CreateSuccessJsonResp
      end
  end.

End Handlers.

(** *** Middleware of a route group *)

(** The two gin middlewares the server installs. Both are gin's own:
    [gin.Recovery()] passes the request on, and [gin.BasicAuth(accounts)]
    passes it on when its [Authorization] header is the one of an account
    and aborts with 401 otherwise. *)
Inductive middleware :=
| Recovery
| BasicAuth (accounts : list (string * string)).

Record RouterGroup := mkRouterGroup {
  basePath : string;
  Handlers : list middleware
}.

(** [group.Use(m)]. *)
Definition Use (g : RouterGroup) (m : middleware) : RouterGroup :=
  mkRouterGroup (basePath g) (Handlers g ++ [m]).

(** [engine.Group(path)]: the new group inherits the middleware. *)
Definition Group (g : RouterGroup) (path : string) : RouterGroup :=
  mkRouterGroup (basePath g ++ path) (Handlers g).

Record AdminServer := mkAdminServer {
  Addr : string;
  User : string;
  Password : string
}.

Definition wrapBasicAuthGinMiddleware (cfg : AdminServer) (group : RouterGroup)
  : RouterGroup :=
  let basicAuthUser := User cfg in
  let basicAuthPassword := Password cfg in
  if negb (basicAuthUser =? "")%string && negb (basicAuthPassword =? "")%string then
    Use group (BasicAuth [(basicAuthUser, basicAuthPassword)])
  else group.

(** [CreateHttpApiServer], lines 83-89 and 107: the engine with
    [gin.Recovery()], the namespace group and the test group. *)
Definition engine : RouterGroup := Use (mkRouterGroup "" []) Recovery.

Definition namespaceRouteGroup (cfg : AdminServer) : RouterGroup :=
  wrapBasicAuthGinMiddleware cfg (Group engine "/admin/namespace").

Definition testRouteGroup : RouterGroup := Group engine "/test".

(** *** [gin.BasicAuth]

    The middleware is gin's. It turns every account into the header value
    [Basic ] followed by the base64 encoding of [user:password], and
    searches the request's [Authorization] header among these values. *)

(** [base64.StdEncoding]: the alphabet and the padded encoding of bytes. *)
Definition base64_alphabet : string :=
  "ABCDEFGHIJKLMNOPQRSTUVWXYZabcdefghijklmnopqrstuvwxyz0123456789+/".

Definition base64_digit (n : N) : ascii :=
  match String.get (N.to_nat n) base64_alphabet with
  | Some a => a
  | None => "="%char
  end.

Fixpoint base64_bytes (bs : list N) : string :=
  match bs with
  | [] => ""
  | [a] =>
      let n := (a * 65536)%N in
      String (base64_digit (n / 262144))
        (String (base64_digit ((n / 4096) mod 64)) "==")
  | [a; b] =>
      let n := (a * 65536 + b * 256)%N in
      String (base64_digit (n / 262144))
        (String (base64_digit ((n / 4096) mod 64))
           (String (base64_digit ((n / 64) mod 64)) "="))
  | a :: b :: c :: rest =>
      let n := (a * 65536 + b * 256 + c)%N in
      String (base64_digit (n / 262144))
        (String (base64_digit ((n / 4096) mod 64))
           (String (base64_digit ((n / 64) mod 64))
              (String (base64_digit (n mod 64)) (base64_bytes rest))))
  end.

Definition EncodeToString (s : string) : string :=
  base64_bytes (N_of_ascii <$> list_ascii_of_string s).

(** [authorizationHeader(user, password)]. *)
Definition authorizationHeader (user password : string) : string :=
  "Basic " ++ EncodeToString (user ++ ":" ++ password).

(** [searchCredential]: the user of the first account whose header value is
    the request's; an empty header matches nothing. *)
Fixpoint searchCredential (accounts : list (string * string))
         (authValue : string) : option string :=
  if (authValue =? "")%string then None else
  match accounts with
  | [] => None
  | (user, password) :: accounts' =>
      if (authorizationHeader user password =? authValue)%string then Some user
      else searchCredential accounts' authValue
  end.

Definition AuthUserKey : string := "user".

(** The value of the [WWW-Authenticate] header: [Basic realm=] followed by
    the quoted realm, which is [Authorization Required] for
    [gin.BasicAuth]. *)
Definition basicRealm : string :=
  "Basic realm=" ++ String "034" ("Authorization Required" ++ String "034" "").

(** Running a request through the middleware of its group and then its
    handler. *)
Fixpoint serve {Mgr : Type} (mws : list middleware)
         (h : Mgr -> ginContext -> Mgr * ginContext)
         (n : Mgr) (c : ginContext) : Mgr * ginContext :=
  match mws with
  | [] => h n c
  | Recovery :: mws' => serve mws' h n c
  | BasicAuth accounts :: mws' =>
      match searchCredential accounts (Authorization c) with
      | Some user => serve mws' h n (SetKey c AuthUserKey user)
      | None =>
          (n, AbortWithHeader c "WWW-Authenticate" basicRealm StatusUnauthorized)
      end
  end.

Definition route_group (cfg : AdminServer) (r : route) : RouterGroup :=
  match r with
  | PostTestRedirect => testRouteGroup
  | _ => namespaceRouteGroup cfg
  end.

(** *** The route table of [CreateHttpApiServer] *)

Inductive httpMethod := GET | POST | ANY.

Record routeEntry := mkRoute {
  r_method : httpMethod;
  r_path : string;
  r_chain : list middleware
}.

(** [group.POST(rel, h)], [group.GET], [group.Any]: the route has the path
    of the group followed by [rel], and the middleware the group has when the
    route is added. *)
Definition handle (g : RouterGroup) (m : httpMethod) (rel : string)
  : routeEntry :=
  mkRoute m (basePath g ++ rel) (Handlers g).

Definition AddHandlersToRouteGroup (group : RouterGroup) : list routeEntry :=
  [handle group POST "/remove/:namespace";
   handle group POST "/reload/prepare/:namespace";
   handle group POST "/reload/commit/:namespace"].

Definition metricsRouteGroup : RouterGroup := Group engine "/metrics".

Definition pprofRouteGroup : RouterGroup := Group engine "/debug/pprof".

(** [CreateHttpApiServer], lines 83-109, in the order of the source. *)
Definition CreateHttpApiServer_routes (cfg : AdminServer) : list routeEntry :=
  (AddHandlersToRouteGroup (namespaceRouteGroup cfg)
   ++ [handle metricsRouteGroup GET "/";
       handle pprofRouteGroup ANY "/";
       handle pprofRouteGroup ANY "/cmdline";
       handle pprofRouteGroup ANY "/profile";
       handle pprofRouteGroup ANY "/symbol";
       handle pprofRouteGroup ANY "/trace";
       handle pprofRouteGroup ANY "/block";
       handle pprofRouteGroup ANY "/goroutine";
       handle pprofRouteGroup ANY "/heap";
       handle pprofRouteGroup ANY "/mutex";
       handle pprofRouteGroup ANY "/threadcreate";
       handle pprofRouteGroup ANY "/allocs";
       handle testRouteGroup POST "/redirect"])%list.

Definition guarded (e : routeEntry) : bool :=
  existsb (fun m => match m with BasicAuth _ => true | Recovery => false end)
          (r_chain e).

(** *** [HttpApiServer.Run] and [HttpApiServer.Close]

    [Run] starts a goroutine that serves and sends what [http.Serve]
    returns on the unbuffered [errCh], then selects between [closeCh] and
    [errCh]; its deferred function closes the listener. [http.Serve] closes
    the listener itself before it returns. [Close] closes [closeCh]. *)

Inductive runner :=
| RunNotStarted
| RunSelecting                 (* in the [select], lines 137-142 *)
| RunReturned                  (* took [<-h.closeCh], listener closed *)
| RunFatal (e : string).       (* took [<-errCh]: [Fatal] ends the process *)

Inductive serving :=
| SrvNotStarted
| SrvServing                   (* inside [http.Serve] *)
| SrvSending (e : string)      (* blocked in [errCh <- err] *)
| SrvDone.                     (* the send was received *)

Record apiServer := mkApiServer {
  closeChClosed : bool;
  apiListenerClosed : bool;      (* the listener has been closed *)
  apiRun : runner;
  apiServing : serving;
  apiPanicked : bool             (* [close] of a closed channel *)
}.

Inductive apiLabel :=
| ApiRun                       (* [h.Run()] is called *)
| ApiServeReturns (e : string) (* [http.Serve] closes the listener and
                                  returns its error *)
| ApiSelectClose
| ApiSelectErr
| ApiClose.                    (* [h.Close()] is called *)

Definition apiInit : apiServer :=
  mkApiServer false false RunNotStarted SrvNotStarted false.

(** Whether the process is still running. *)
Definition apiAlive (a : apiServer) : bool :=
  negb (apiPanicked a)
  && match apiRun a with RunFatal _ => false | _ => true end.

Definition apiStep (l : apiLabel) (a : apiServer) : option apiServer :=
  if negb (apiAlive a) then None else
  match l with
  | ApiRun =>
      match apiRun a with
      | RunNotStarted =>
          Some (mkApiServer (closeChClosed a) (apiListenerClosed a)
                            RunSelecting SrvServing (apiPanicked a))
      | _ => None
      end
  | ApiServeReturns e =>
      match apiServing a with
      | SrvServing =>
          Some (mkApiServer (closeChClosed a) true
                            (apiRun a) (SrvSending e) (apiPanicked a))
      | _ => None
      end
  | ApiSelectClose =>
      match apiRun a with
      | RunSelecting =>
          if closeChClosed a then
            Some (mkApiServer true true RunReturned (apiServing a)
                              (apiPanicked a))
          else None
      | _ => None
      end
  | ApiSelectErr =>
      match apiRun a, apiServing a with
      | RunSelecting, SrvSending e =>
          Some (mkApiServer (closeChClosed a) (apiListenerClosed a)
                            (RunFatal e) SrvDone (apiPanicked a))
      | _, _ => None
      end
  | ApiClose =>
      if closeChClosed a then
        Some (mkApiServer true (apiListenerClosed a) (apiRun a)
                          (apiServing a) true)
      else
        Some (mkApiServer true (apiListenerClosed a) (apiRun a)
                          (apiServing a) false)
  end.

Fixpoint apiExec (ls : list apiLabel) (a : apiServer) : option apiServer :=
  match ls with
  | [] => Some a
  | l :: ls' =>
      match apiStep l a with
      | Some a' => apiExec ls' a'
      | None => None
      end
  end.

Definition apiReachable (a : apiServer) : Prop :=
  exists ls, apiExec ls apiInit = Some a.

(** The states the two goroutines and the listener can be in together. *)
Definition api_consistent (a : apiServer) : bool :=
  match apiRun a, apiServing a with
  | RunNotStarted, SrvNotStarted => negb (apiListenerClosed a)
  | RunSelecting, SrvServing => negb (apiListenerClosed a)
  | RunSelecting, SrvSending _ => apiListenerClosed a
  | RunReturned, (SrvServing | SrvSending _) =>
      closeChClosed a && apiListenerClosed a
  | RunFatal _, SrvDone => apiListenerClosed a
  | _, _ => false
  end.

(** [http.Serve] has returned: its goroutine is sending the error or has
    sent it. *)
Definition serve_returned (a : apiServer) : Prop :=
  match apiServing a with
  | SrvSending _ | SrvDone => True
  | _ => False
  end.

End HttpApi.

(** ** The backend connection manager

    The package [pkg/proxy/backend] is represented among the files by its
    tests only. Its definitions here are modelled from the specification
    (sections 3 and 4.1-4.2), each marked as such. *)

Module Backend.

Local Open Scope Z_scope.

Inductive AuthPlugin :=
| AuthNativePassword
| AuthCachingSha2Password.

#[global] Instance AuthPlugin_eq_dec : EqDecision AuthPlugin.
Proof. solve_decision. Defined.

(** [mysql.ClientSSL], the capability bit the tests switch on and off. *)
Definition ClientSSL : Z := 2048.

Definition Salt := list Z.
Definition Credential := string.
Definition Addr := string.

(** Authentication data is kept symbolic: what was computed from what. A
    scramble is made for one plugin from one salt and the credential; the
    full exchange of caching-sha2 carries the credential RSA-encrypted, or
    as it is on a socket under TLS. *)
Inductive AuthData :=
| Scramble (plugin : AuthPlugin) (salt : Salt) (cred : Credential)
| RSAEncrypted (cred : Credential)
| OverTLS (cred : Credential).

#[global] Instance AuthData_eq_dec : EqDecision AuthData.
Proof. solve_decision. Defined.

(** Modelled from the spec: the backend's greeting (version, connection id,
    capability bitset, auth-plugin, salt). *)
Record Greeting := mkGreeting {
  g_version : string;
  g_connID : Z;
  g_capability : Z;
  g_authPlugin : AuthPlugin;
  g_salt : Salt
}.

(** Packets of the backend-facing socket. *)
Inductive BackendPacket :=
| BGreeting (g : Greeting)
| BOK
| BErr (msg : string)
| BAuthSwitch (plugin : AuthPlugin) (salt : Salt)
| BFastAuthSuccess
| BFullAuthRequest.

Inductive ProxyPacket :=
| PHandshakeResponse (capability : Z) (user db : string)
                     (plugin : AuthPlugin) (auth : AuthData)
| PAuthSwitchResponse (auth : AuthData)
| PCredential (auth : AuthData)
| PChangeUser (user db : string) (plugin : AuthPlugin) (auth : AuthData)
| PInitDB (db : string).

(** Modelled from the spec: the states of the auth-plugin exchange. *)
Inductive AuthState :=
| AwaitingGreeting
| AwaitingAuthResult
| AwaitingAuthSwitch
| AwaitingFastAuthResult
| Established
| Failed.

Inductive HandshakeError :=
| ErrTLSRequired
| ErrProtocol
| ErrBackend (msg : string).

(** What the handshake is run with: the client-facing session's offer and
    TLS state, the policy, and the credentials of the session. *)
Record HandshakeInput := mkHandshakeInput {
  hi_policyCapability : Z;      (* policy-mandated minimum *)
  hi_clientCapability : Z;      (* what the client offered *)
  hi_clientTLS : bool;          (* the client-facing session completed TLS *)
  hi_backendMandatesTLS : bool; (* the backend mandates TLS *)
  hi_backendTLS : bool;         (* the backend-facing socket is under TLS *)
  hi_user : string;
  hi_db : string;
  hi_cred : Credential
}.

(** Modelled from the spec: the capability set to offer is the
    policy-mandated minimum, unioned with what the client offered,
    intersected with what the backend advertises. *)
Definition offered_capability (hi : HandshakeInput) (g : Greeting) : Z :=
  Z.land (Z.lor (hi_policyCapability hi) (hi_clientCapability hi))
         (g_capability g).

(** Modelled from the spec: the reply to an auth-switch, and to a request
    for the full exchange. *)
Definition switch_response (hi : HandshakeInput) (plugin : AuthPlugin)
           (salt : Salt) : AuthState * list ProxyPacket :=
  match plugin with
  | AuthNativePassword =>
      (AwaitingAuthSwitch,
       [PAuthSwitchResponse (Scramble AuthNativePassword salt (hi_cred hi))])
  | AuthCachingSha2Password =>
      (AwaitingFastAuthResult,
       [PAuthSwitchResponse (Scramble AuthCachingSha2Password salt (hi_cred hi))])
  end.

Definition full_exchange (hi : HandshakeInput) : list ProxyPacket :=
  [PCredential (if hi_backendTLS hi then OverTLS (hi_cred hi)
                else RSAEncrypted (hi_cred hi))].

(** Modelled from the spec: one step of the proxy's side of the backend
    handshake (section 4.1): the new state, the packets sent to the backend
    and the error raised, if any. A packet that is not legal in the current
    state is a protocol error. *)
Definition handshake_recv (hi : HandshakeInput) (st : AuthState)
           (p : BackendPacket)
  : AuthState * list ProxyPacket * option HandshakeError :=
  match st, p with
  | AwaitingGreeting, BGreeting g =>
      if hi_backendMandatesTLS hi && negb (hi_clientTLS hi) then
        (Failed, [], Some ErrTLSRequired)
      else
        (AwaitingAuthResult,
         [PHandshakeResponse (offered_capability hi g) (hi_user hi) (hi_db hi)
                             (g_authPlugin g)
                             (Scramble (g_authPlugin g) (g_salt g) (hi_cred hi))],
         None)
  | AwaitingAuthResult, BOK => (Established, [], None)
  | AwaitingAuthResult, BAuthSwitch plugin salt =>
      let '(st', out) := switch_response hi plugin salt in (st', out, None)
  | AwaitingAuthSwitch, BOK => (Established, [], None)
  | AwaitingFastAuthResult, BFastAuthSuccess => (AwaitingAuthResult, [], None)
  | AwaitingFastAuthResult, BFullAuthRequest =>
      (AwaitingAuthResult, full_exchange hi, None)
  | (AwaitingAuthResult | AwaitingAuthSwitch | AwaitingFastAuthResult), BErr msg =>
      (Failed, [], Some (ErrBackend msg))
  | Failed, _ => (Failed, [], None)
  | _, _ => (Failed, [], Some ErrProtocol)
  end.

(** A backend as the handshake sees it: a state and its replies. *)
Record Server (B : Type) := mkServer {
  srv_recv : B -> ProxyPacket -> B * list BackendPacket
}.

Arguments srv_recv {B} _ _ _.

Fixpoint deliver {B : Type} (srv : Server B) (b : B) (ps : list ProxyPacket)
  : B * list BackendPacket :=
  match ps with
  | [] => (b, [])
  | p :: ps' =>
      let '(b', r) := srv_recv srv b p in
      let '(b'', r') := deliver srv b' ps' in
      (b'', r ++ r')
  end.

Record Outcome (B : Type) := mkOutcome {
  o_state : AuthState;
  o_backend : B;
  o_sent : list ProxyPacket;             (* everything sent to the backend *)
  o_received : list BackendPacket;       (* everything read from it *)
  o_error : option HandshakeError        (* the first error *)
}.

Arguments mkOutcome {B} _ _ _ _ _.
Arguments o_state {B} _.
Arguments o_backend {B} _.
Arguments o_sent {B} _.
Arguments o_received {B} _.
Arguments o_error {B} _.

(** Modelled from the spec: the exchange. The proxy takes the backend's
    packets one by one and the backend answers what the proxy sends, until
    nobody has anything to say. All socket traffic is sequential. *)
Fixpoint converse {B : Type} (fuel : nat) (hi : HandshakeInput) (srv : Server B)
         (st : AuthState) (b : B) (inbox : list BackendPacket)
         (sent : list ProxyPacket) (received : list BackendPacket)
         (err : option HandshakeError) : Outcome B :=
  match fuel, inbox with
  | S fuel', p :: inbox' =>
      let '(st', out, e) := handshake_recv hi st p in
      let '(b', replies) := deliver srv b out in
      converse fuel' hi srv st' b' (inbox' ++ replies) (sent ++ out)
               (received ++ [p])
               (match err with Some _ => err | None => e end)
  | _, _ => mkOutcome st b sent received err
  end.


(** The backend handshake: the backend speaks first. *)
Definition handshake {B : Type} (fuel : nat) (hi : HandshakeInput)
           (srv : Server B) (b : B) (g : Greeting) : Outcome B :=
  converse fuel hi srv AwaitingGreeting b [BGreeting g] [] [] None.

(** *** A backend that follows the protocol *)

(** Modelled from the spec: the other end of the exchange of section 4.1,
    a backend with its plugin, whether it asks for an auth-switch of its own
    accord, whether the caching-sha2 cache knows the account, the account
    and the salt of its greeting. It accepts a scramble made for its plugin
    from its salt and the credential of the account, and in the full
    exchange the credential as it is when the socket is under TLS and
    RSA-encrypted when it is not. *)
Record BackendConfig := mkBackendConfig {
  bc_authPlugin : AuthPlugin;
  bc_switchAuth : bool;
  bc_cacheHit : bool;
  bc_user : string;
  bc_cred : Credential;
  bc_salt : Salt
}.

Inductive BackendPhase :=
| BpExpectResponse            (* after the greeting *)
| BpExpectSwitchResponse
| BpExpectCredential
| BpAccepted                  (* authenticated: the command phase *)
| BpRejected.

Record BackendState := mkBackendState {
  bp_phase : BackendPhase;
  bp_user : string;             (* the user of the login under way or done *)
  bp_tls : bool                 (* the socket is under TLS *)
}.

Definition backend_start (tls : bool) : BackendState :=
  mkBackendState BpExpectResponse "" tls.

Definition check_scramble (bc : BackendConfig) (a : AuthData) : bool :=
  bool_decide (a = Scramble (bc_authPlugin bc) (bc_salt bc) (bc_cred bc)).

Definition check_credential (bc : BackendConfig) (tls : bool) (a : AuthData)
  : bool :=
  match a with
  | RSAEncrypted cred => negb tls && (cred =? bc_cred bc)%string
  | OverTLS cred => tls && (cred =? bc_cred bc)%string
  | Scramble _ _ _ => false
  end.

Definition verdict (bc : BackendConfig) (st : BackendState) (user : string)
           (ok : bool) : BackendState * list BackendPacket :=
  if (user =? bc_user bc)%string && ok
  then (mkBackendState BpAccepted user (bp_tls st), [BOK])
  else (mkBackendState BpRejected user (bp_tls st), [BErr "Access denied"]).

(** A login with [user], [plugin] and the auth data [a]: the handshake
    response, or a change of user in the command phase. *)
Definition backend_login (bc : BackendConfig) (st : BackendState)
           (user : string) (plugin : AuthPlugin) (a : AuthData)
  : BackendState * list BackendPacket :=
  if bc_switchAuth bc || negb (bool_decide (plugin = bc_authPlugin bc)) then
    (mkBackendState BpExpectSwitchResponse user (bp_tls st),
     [BAuthSwitch (bc_authPlugin bc) (bc_salt bc)])
  else verdict bc st user (check_scramble bc a).

(** Modelled from the spec: what the backend answers, phase by phase. A
    login made with another plugin than the backend's, or any login when the
    backend is configured so, is answered with an auth-switch; caching-sha2
    takes the fast path on a cache hit and asks for the full exchange
    otherwise. *)
Definition backend_recv (bc : BackendConfig) (st : BackendState)
           (p : ProxyPacket) : BackendState * list BackendPacket :=
  match bp_phase st, p with
  | BpExpectResponse, PHandshakeResponse _ user _ plugin a =>
      backend_login bc st user plugin a
  | BpAccepted, PChangeUser user _ plugin a =>
      backend_login bc st user plugin a
  | BpAccepted, PInitDB _ => (st, [BOK])
  | BpExpectSwitchResponse, PAuthSwitchResponse a =>
      match bc_authPlugin bc with
      | AuthNativePassword => verdict bc st (bp_user st) (check_scramble bc a)
      | AuthCachingSha2Password =>
          if bc_cacheHit bc && (bp_user st =? bc_user bc)%string
             && check_scramble bc a
          then (mkBackendState BpAccepted (bp_user st) (bp_tls st),
                [BFastAuthSuccess; BOK])
          else (mkBackendState BpExpectCredential (bp_user st) (bp_tls st),
                [BFullAuthRequest])
      end
  | BpExpectCredential, PCredential a =>
      verdict bc st (bp_user st) (check_credential bc (bp_tls st) a)
  | _, _ =>
      (mkBackendState BpRejected (bp_user st) (bp_tls st),
       [BErr "Malformed packet"])
  end.

Definition backend (bc : BackendConfig) : Server BackendState :=
  mkServer _ (backend_recv bc).

Definition backend_greeting (bc : BackendConfig) (capability : Z) : Greeting :=
  mkGreeting "8.0.11" 1 capability (bc_authPlugin bc) (bc_salt bc).

(** *** The client-facing handshake *)

Inductive ClientFacingPacket :=
| CGreeting (capability : Z) (salt : Salt) (plugin : AuthPlugin)
| CAuthSwitch (plugin : AuthPlugin) (salt : Salt)
| COK
| CErr (msg : string).

(** A client: its capabilities, the plugin it answers the greeting with, its
    TLS state and its account. *)
Record ClientConfig := mkClientConfig {
  cl_capability : Z;
  cl_authPlugin : AuthPlugin;
  cl_tls : bool;
  cl_user : string;
  cl_db : string;
  cl_cred : Credential
}.

(** The proxy's own side: its greeting and the policy it verifies the
    client's answer with (the namespace manager's, external), which on
    accept gives the credential of the session. *)
Record ProxyConfig := mkProxyConfig {
  px_capability : Z;
  px_authPlugin : AuthPlugin;
  px_salt : Salt;
  px_policyCapability : Z;
  px_verify : string -> AuthData -> option Credential;
  px_backendMandatesTLS : bool;
  px_backendTLS : bool
}.

(** What the client answers a greeting or an auth-switch request with. *)
Definition client_answer (cl : ClientConfig) (plugin : AuthPlugin) (salt : Salt)
  : AuthData :=
  Scramble plugin salt (cl_cred cl).

(** Modelled from the spec: section 4.2. The proxy sends its greeting,
    reads the client's auth response, issues an auth-switch request and
    re-reads if its configured plugin differs from what the client used, and
    has the policy verify the answer. The result is the credential of the
    session, if accepted, and what was sent to the client. *)
Definition client_handshake (px : ProxyConfig) (cl : ClientConfig)
  : option Credential * list ClientFacingPacket :=
  let greeting := CGreeting (px_capability px) (px_salt px) (px_authPlugin px) in
  let '(auth, sent) :=
    if decide (cl_authPlugin cl = px_authPlugin px) then
      (client_answer cl (cl_authPlugin cl) (px_salt px), [greeting])
    else
      (client_answer cl (px_authPlugin px) (px_salt px),
       [greeting; CAuthSwitch (px_authPlugin px) (px_salt px)]) in
  match px_verify px (cl_user cl) auth with
  | Some cred => (Some cred, sent)
  | None => (None, sent ++ [CErr "Access denied"])
  end.

Definition handshake_input (px : ProxyConfig) (cl : ClientConfig)
           (cred : Credential) : HandshakeInput :=
  mkHandshakeInput (px_policyCapability px) (cl_capability cl) (cl_tls cl)
                   (px_backendMandatesTLS px) (px_backendTLS px)
                   (cl_user cl) (cl_db cl) cred.

Definition error_packet (e : HandshakeError) : ClientFacingPacket :=
  match e with
  | ErrTLSRequired => CErr "TLS required"
  | ErrProtocol => CErr "protocol error"
  | ErrBackend msg => CErr msg
  end.

(** Modelled from the spec: section 4.2. On accept the backend connection
    manager is constructed and the backend handshake runs for the first
    time. *)
Definition authenticate {B : Type} (fuel : nat) (px : ProxyConfig)
           (cl : ClientConfig) (srv : Server B) (b : B) (g : Greeting)
  : list ClientFacingPacket * option (Outcome B) :=
  match client_handshake px cl with
  | (None, sent) => (sent, None)
  | (Some cred, sent) =>
      let o := handshake fuel (handshake_input px cl cred) srv b g in
      (sent ++ match o_state o, o_error o with
               | Established, _ => [COK]
               | _, Some e => [error_packet e]
               | _, None => []
               end,
       Some o)
  end.

(** *** Sessions (section 3 of the specification) *)

Record ClientSession := mkClientSession {
  cs_connID : Z;
  cs_capability : Z;
  cs_authPlugin : AuthPlugin;
  cs_schema : string;
  cs_tls : bool
}.

Record BackendSession := mkBackendSession {
  bs_socket : nat;                (* the physical backend socket *)
  bs_capability : Z;
  bs_authPlugin : AuthPlugin;
  bs_tls : bool;
  bs_user : string;
  bs_schema : string;
  bs_state : AuthState;
  bs_redirecting : bool;          (* redirect-in-progress flag *)
  bs_target : Addr                (* and its target address *)
}.

Record Session := mkSession {
  s_client : ClientSession;
  s_backend : BackendSession;     (* the one backend session it refers to *)
  s_clientOpen : bool;            (* the client socket is open *)
  s_commandInFlight : bool;
  s_deferred : option Addr        (* a redirection waiting for the response *)
}.

(** What an operation does outside the session. *)
Inductive Report :=
| Redirected (target : Addr)
| RedirectFailed (target : Addr) (e : HandshakeError)
| RedirectRefused (target : Addr).

Record Effects := mkEffects {
  e_toClient : list ClientFacingPacket;
  e_toBackend : list (nat * ProxyPacket);   (* socket and packet *)
  e_dialed : list Addr;                     (* new backend sockets opened *)
  e_closed : list nat;                      (* backend sockets closed *)
  e_toCaller : list Report
}.

Definition no_effects : Effects := mkEffects [] [] [] [] [].

(** *** Second handshake *)

(** The client commands that change the identity or the schema. *)
Inductive Command :=
| ComChangeUser (user db : string) (cred : Credential)
| ComInitDB (db : string).

Definition second_request (bs : BackendSession) (salt : Salt) (cmd : Command)
  : ProxyPacket :=
  match cmd with
  | ComChangeUser user db cred =>
      PChangeUser user db (bs_authPlugin bs) (Scramble (bs_authPlugin bs) salt cred)
  | ComInitDB db => PInitDB db
  end.

Definition second_input (s : Session) (cmd : Command) : HandshakeInput :=
  let bs := s_backend s in
  match cmd with
  | ComChangeUser user db cred =>
      mkHandshakeInput 0 (cs_capability (s_client s)) (cs_tls (s_client s))
                       false (bs_tls bs) user db cred
  | ComInitDB db =>
      mkHandshakeInput 0 (cs_capability (s_client s)) (cs_tls (s_client s))
                       false (bs_tls bs) (bs_user bs) db ""
  end.

Definition with_identity (bs : BackendSession) (cmd : Command)
           (st : AuthState) : BackendSession :=
  match cmd with
  | ComChangeUser user db _ =>
      mkBackendSession (bs_socket bs) (bs_capability bs) (bs_authPlugin bs)
                       (bs_tls bs) user db st
                       (bs_redirecting bs) (bs_target bs)
  | ComInitDB db =>
      mkBackendSession (bs_socket bs) (bs_capability bs) (bs_authPlugin bs)
                       (bs_tls bs) (bs_user bs) db st
                       (bs_redirecting bs) (bs_target bs)
  end.

(** Modelled from the spec: section 4.1, second handshake. The handshake
    subset from the auth result on is re-run on the socket the session
    already has, with the new user and schema. On failure the error goes to
    the client and the backend session is left [Failed]; nothing is rolled
    back and the client socket is not touched. The result is the session,
    the exchange with the backend, and what was done outside. *)
Definition second_handshake {B : Type} (fuel : nat) (srv : Server B) (b : B)
           (salt : Salt) (s : Session) (cmd : Command)
  : Session * Outcome B * Effects :=
  let bs := s_backend s in
  let req := second_request bs salt cmd in
  let '(b', replies) := srv_recv srv b req in
  let o := converse fuel (second_input s cmd) srv AwaitingAuthResult b'
                    replies [req] [] None in
  let st := match o_state o with Established => Established | _ => Failed end in
  (mkSession (s_client s) (with_identity bs cmd st) (s_clientOpen s)
             (s_commandInFlight s) (s_deferred s),
   o,
   mkEffects (match st, o_error o with
              | Established, _ => [COK]
              | _, Some e => [error_packet e]
              | _, None => [CErr "protocol error"]
              end)
             (map (pair (bs_socket bs)) (o_sent o)) [] [] []).

(** *** Redirection *)

Inductive TargetResult :=
| TargetReady (fresh : BackendSession)
| TargetFailed (e : HandshakeError).

Inductive RedirectEvent :=
| RedirectRequested (target : Addr)        (* the external trigger *)
| CommandStarted
| CommandFinished                          (* response fully relayed *)
| TargetHandshakeDone (r : TargetResult).  (* step 1 has finished *)

Definition set_redirect (bs : BackendSession) (flag : bool) (target : Addr)
  : BackendSession :=
  mkBackendSession (bs_socket bs) (bs_capability bs) (bs_authPlugin bs)
                   (bs_tls bs) (bs_user bs) (bs_schema bs) (bs_state bs)
                   flag target.

(** Step 1: open a session to the target and start the full handshake. *)
Definition start_redirect (s : Session) (target : Addr) : Session * Effects :=
  (mkSession (s_client s) (set_redirect (s_backend s) true target)
             (s_clientOpen s) (s_commandInFlight s) None,
   mkEffects [] [] [target] [] []).

(** Modelled from the spec: section 4.1, redirection. A request is deferred
    while a command is in flight; the handshake with the target runs off the
    client-facing path; on failure the existing backend session is kept and
    the failure reported to the caller; on success the reference is swapped
    and the old socket closed. The specification gives only the guarantee
    that one redirection is in flight at a time: here a request that arrives
    while another is in flight or deferred is refused and reported. *)
Definition redirect_step (ev : RedirectEvent) (s : Session) : Session * Effects :=
  let bs := s_backend s in
  match ev with
  | RedirectRequested target =>
      if bs_redirecting bs || bool_decide (is_Some (s_deferred s)) then
        (s, mkEffects [] [] [] [] [RedirectRefused target])
      else if s_commandInFlight s then
        (mkSession (s_client s) bs (s_clientOpen s) true (Some target),
         no_effects)
      else start_redirect s target
  | CommandStarted =>
      (mkSession (s_client s) bs (s_clientOpen s) true (s_deferred s),
       no_effects)
  | CommandFinished =>
      let s' := mkSession (s_client s) bs (s_clientOpen s) false (s_deferred s) in
      match s_deferred s with
      | Some target => start_redirect s' target
      | None => (s', no_effects)
      end
  | TargetHandshakeDone r =>
      if bs_redirecting bs then
        match r with
        | TargetFailed e =>
            (mkSession (s_client s) (set_redirect bs false (bs_target bs))
                       (s_clientOpen s) (s_commandInFlight s) (s_deferred s),
             mkEffects [] [] [] [] [RedirectFailed (bs_target bs) e])
        | TargetReady fresh =>
            (mkSession (s_client s) (set_redirect fresh false (bs_target bs))
                       (s_clientOpen s) (s_commandInFlight s) (s_deferred s),
             mkEffects [] [] [] [bs_socket bs] [Redirected (bs_target bs)])
        end
      else (s, no_effects)
  end.

(** An established session with nothing going on. *)
Definition idle_session : Session :=
  mkSession (mkClientSession 0 (Z.lor 512 2048) AuthNativePassword "test" true)
            (mkBackendSession 5 (Z.lor 512 2048) AuthNativePassword true
                              "root" "test" Established false "")
            true false None.

(** The handshakes with a target that have been started and have not
    finished, along a run of events: one more for every socket opened to a
    target, one less when a handshake with a target finishes. *)
Definition in_flight_after (ev : RedirectEvent) (s : Session)
           (n : nat) : nat :=
  let started := length (e_dialed (snd (redirect_step ev s))) in
  match ev with
  | TargetHandshakeDone _ => (n + started - 1)%nat
  | _ => (n + started)%nat
  end.

Fixpoint redirect_run (evs : list RedirectEvent) (s : Session) (n : nat)
  : Session * nat * list Effects :=
  match evs with
  | [] => (s, n, [])
  | ev :: evs' =>
      let '(s', eff) := redirect_step ev s in
      let '(s'', n', effs) := redirect_run evs' s' (in_flight_after ev s n) in
      (s'', n', eff :: effs)
  end.









End Backend.

(** ** The tests of the backend package (second part of [pkg/proxy/api.go])

    The test functions build lists of configuration overriders. The
    overriders are closures over a [testConfig]; its type and the constants
    [defaultClientCapability], [defaultBackendCapability] and [mockAuthData]
    are declared in files that are not at hand and are parameters here. *)

Module BackendTests.

Import Backend.

Local Open Scope Z_scope.

(** Capability flags of [mysql] ([uint32], [1 << iota]). *)
Definition ClientConnectWithDB : Z := 8.
Definition ClientProtocol41 : Z := 512.
Definition ClientSecureConnection : Z := 32768.
Definition ClientPluginAuth : Z := 524288.
Definition ClientConnectAtts : Z := 1048576.

(** [^x] on a [uint32]. *)
Definition not32 (x : Z) : Z := Z.lxor x (Z.ones 32).

Record clientConfig := mkClientTestConfig {
  client_capability : Z;
  client_authData : list Z;
  client_authPlugin : AuthPlugin;
  client_attrs : list Z
}.

Record backendConfig := mkBackendTestConfig {
  backend_capability : Z;
  backend_authPlugin : AuthPlugin;
  backend_switchAuth : bool;
  backend_authSucceed : bool
}.

Record testConfig := mkTestConfig {
  tc_client : clientConfig;
  tc_backend : backendConfig
}.

Definition cfgOverrider := testConfig -> testConfig.

(** Assignments to one field of the configuration. *)
Definition set_client_capability (v : Z) : cfgOverrider := fun cfg =>
  mkTestConfig (mkClientTestConfig v (client_authData (tc_client cfg))
                  (client_authPlugin (tc_client cfg))
                  (client_attrs (tc_client cfg)))
               (tc_backend cfg).

Definition set_client_authData (v : list Z) : cfgOverrider := fun cfg =>
  mkTestConfig (mkClientTestConfig (client_capability (tc_client cfg)) v
                  (client_authPlugin (tc_client cfg))
                  (client_attrs (tc_client cfg)))
               (tc_backend cfg).

Definition set_client_authPlugin (v : AuthPlugin) : cfgOverrider := fun cfg =>
  mkTestConfig (mkClientTestConfig (client_capability (tc_client cfg))
                  (client_authData (tc_client cfg)) v
                  (client_attrs (tc_client cfg)))
               (tc_backend cfg).

Definition set_client_attrs (v : list Z) : cfgOverrider := fun cfg =>
  mkTestConfig (mkClientTestConfig (client_capability (tc_client cfg))
                  (client_authData (tc_client cfg))
                  (client_authPlugin (tc_client cfg)) v)
               (tc_backend cfg).

Definition set_backend_capability (v : Z) : cfgOverrider := fun cfg =>
  mkTestConfig (tc_client cfg)
               (mkBackendTestConfig v (backend_authPlugin (tc_backend cfg))
                  (backend_switchAuth (tc_backend cfg))
                  (backend_authSucceed (tc_backend cfg))).

Definition set_backend_authPlugin (v : AuthPlugin) : cfgOverrider := fun cfg =>
  mkTestConfig (tc_client cfg)
               (mkBackendTestConfig (backend_capability (tc_backend cfg)) v
                  (backend_switchAuth (tc_backend cfg))
                  (backend_authSucceed (tc_backend cfg))).

Definition set_backend_switchAuth (v : bool) : cfgOverrider := fun cfg =>
  mkTestConfig (tc_client cfg)
               (mkBackendTestConfig (backend_capability (tc_backend cfg))
                  (backend_authPlugin (tc_backend cfg)) v
                  (backend_authSucceed (tc_backend cfg))).

Definition set_backend_authSucceed (v : bool) : cfgOverrider := fun cfg =>
  mkTestConfig (tc_client cfg)
               (mkBackendTestConfig (backend_capability (tc_backend cfg))
                  (backend_authPlugin (tc_backend cfg))
                  (backend_switchAuth (tc_backend cfg)) v).

(** [strings.Repeat("x", 512)] as bytes. *)
Definition repeat_x_512 : list Z := repeat 120 512.

Section Overriders.

Variable defaultClientCapability : Z.
Variable defaultBackendCapability : Z.
Variable mockAuthData : list Z.

(** [TestTLSConnection], lines 264-281. *)
Definition TestTLSConnection_cfgs : list (list cfgOverrider) :=
  [ [ set_client_capability
        (Z.land defaultClientCapability (not32 ClientSSL));
      set_client_capability (Z.lor defaultClientCapability ClientSSL) ];
    [ set_backend_capability
        (Z.land defaultBackendCapability (not32 ClientSSL));
      set_backend_capability (Z.lor defaultBackendCapability ClientSSL) ] ].

(** [TestAuthPlugin], lines 297-346. *)
Definition TestAuthPlugin_cfgs : list (list cfgOverrider) :=
  [ [ set_client_authData mockAuthData;
      set_client_authData repeat_x_512 ];
    [ set_client_capability
        (Z.land defaultClientCapability (not32 ClientPluginAuth));
      set_client_capability (Z.lor defaultClientCapability ClientPluginAuth) ];
    [ set_client_authPlugin AuthNativePassword;
      set_client_authPlugin AuthCachingSha2Password ];
    [ set_backend_authPlugin AuthNativePassword;
      set_backend_authPlugin AuthCachingSha2Password ];
    [ set_backend_switchAuth true;
      set_backend_switchAuth false ];
    [ set_backend_authSucceed true;
      set_backend_authSucceed false ] ].

(** [TestCapability], lines 358-392. The second overrider of the third
    group makes two assignments. *)
Definition TestCapability_cfgs : list (list cfgOverrider) :=
  [ [ set_client_capability
        (Z.land defaultClientCapability (not32 ClientProtocol41));
      set_client_capability (Z.lor defaultClientCapability ClientProtocol41) ];
    [ set_client_capability
        (Z.land defaultClientCapability (not32 ClientConnectWithDB));
      set_client_capability (Z.lor defaultClientCapability ClientConnectWithDB) ];
    [ set_client_capability
        (Z.land defaultClientCapability (not32 ClientConnectAtts));
      (fun cfg =>
         set_client_attrs repeat_x_512
           (set_client_capability
              (Z.lor defaultClientCapability ClientConnectAtts) cfg)) ];
    [ set_client_capability
        (Z.land defaultClientCapability (not32 ClientSecureConnection));
      set_client_capability
        (Z.lor defaultClientCapability ClientSecureConnection) ] ].

End Overriders.

(** Overriders applied one after the other. *)
Definition apply_overriders (os : list cfgOverrider) (cfg : testConfig)
  : testConfig :=
  fold_left (fun c o => o c) os cfg.

(** [require.ErrorContains(t, err, s)]: fails on a nil error. *)
Definition ErrorContains (err : option string) (s : string) : bool :=
  match err with
  | Some msg => match String.index 0 s msg with Some _ => true | None => false end
  | None => false
  end.

(** The checker of [TestTLSConnection], lines 287-291: whether the
    assertions pass, given the backend's capability and the proxy's error. *)
Definition TestTLSConnection_check (backendCapability : Z)
           (perr : option string) : bool :=
  if Z.land backendCapability ClientSSL =? 0 then
    ErrorContains perr "must enable TLS"
  else true.

(** The flags [TestCapability] means to vary. *)
Definition TestCapability_flags : list Z :=
  [ClientProtocol41; ClientConnectWithDB; ClientConnectAtts;
   ClientSecureConnection].

Definition is_uint32 (x : Z) : Prop := 0 <= x < 2 ^ 32.

(** The overrider taken from a group of two: the first, or the second. *)
Definition pick (second : bool) (group : list cfgOverrider) : cfgOverrider :=
  nth (if second then 1%nat else 0%nat) group (fun cfg => cfg).

(** One overrider from each group, in the order of the groups. *)
Definition combination (choice : list bool) (groups : list (list cfgOverrider))
  : list cfgOverrider :=
  zip_with pick choice groups.

Definition base_config : testConfig :=
  mkTestConfig (mkClientTestConfig 0 [] AuthNativePassword [])
               (mkBackendTestConfig 0 AuthNativePassword false false).

End BackendTests.

(** * Properties *)

Module Uint64Facts.

Import Uint64.

Lemma modulus_eq : modulus = (2 ^ 64)%Z.
Proof. reflexivity. Qed.

Lemma wrap_range z : (0 <= wrap z < modulus)%Z.
Proof. unfold wrap. apply Z.mod_pos_bound. reflexivity. Qed.

Lemma wrap_small z : (0 <= z < modulus)%Z -> wrap z = z.
Proof. intros H. unfold wrap. now apply Z.mod_small. Qed.

Lemma incr_wrap z : incr (wrap z) = wrap (z + 1).
Proof. unfold incr, wrap. now rewrite Zplus_mod_idemp_l. Qed.

Lemma incr_max : incr (modulus - 1) = 0%Z.
Proof. reflexivity. Qed.

Lemma wrap_modulus : wrap modulus = 0%Z.
Proof. reflexivity. Qed.

Lemma wrap_nonzero z : (1 <= z < modulus)%Z -> wrap z <> 0%Z.
Proof. intros H. rewrite wrap_small; lia. Qed.

End Uint64Facts.

Module SQLServerFacts.

Import Uint64 Uint64Facts SQLServer.

Local Open Scope Z_scope.

#[local] Arguments wrap : simpl never.
#[local] Arguments incr : simpl never.

(** *** Schedules *)

Lemma exec_cons_inv l ls w w' acts :
  exec (l :: ls) w = Some (w', acts) ->
  exists w1 a1 a2,
    step l w = Some (w1, a1) /\ exec ls w1 = Some (w', a2) /\ acts = a1 ++ a2.
Proof.
  intros H. change (exec (l :: ls) w) with
    (match step l w with
     | Some (w1, a1) =>
         match exec ls w1 with
         | Some (w2, a2) => Some (w2, a1 ++ a2)
         | None => None
         end
     | None => None
     end) in H.
  destruct (step l w) as [[w1 a1]|]; [|discriminate].
  destruct (exec ls w1) as [[w2 a2]|] eqn:E; [|discriminate].
  injection H as <- <-. now exists w1, a1, a2.
Qed.

Lemma exec_cons l ls w w1 w' a1 a2 :
  step l w = Some (w1, a1) -> exec ls w1 = Some (w', a2) ->
  exec (l :: ls) w = Some (w', a1 ++ a2).
Proof.
  intros H1 H2. change (exec (l :: ls) w) with
    (match step l w with
     | Some (w1, a1) =>
         match exec ls w1 with
         | Some (w2, a2) => Some (w2, a1 ++ a2)
         | None => None
         end
     | None => None
     end).
  now rewrite H1, H2.
Qed.

Lemma exec_app ls1 ls2 w0 w1 w2 a1 a2 :
  exec ls1 w0 = Some (w1, a1) ->
  exec ls2 w1 = Some (w2, a2) ->
  exec (ls1 ++ ls2) w0 = Some (w2, a1 ++ a2).
Proof.
  revert w0 a1. induction ls1 as [|l ls1 IH]; intros w0 a1 H1 H2; simpl in *.
  - injection H1 as -> <-. exact H2.
  - destruct (step l w0) as [[w' acts]|]; [|discriminate].
    destruct (exec ls1 w') as [[w'' acts']|] eqn:E; [|discriminate].
    injection H1 as -> <-.
    rewrite (IH _ _ E H2). now rewrite app_assoc.
Qed.

Lemma reachable_from_refl w : reachable_from w w.
Proof. now exists [], []. Qed.

Lemma reachable_from_trans w0 w1 w2 :
  reachable_from w0 w1 -> reachable_from w1 w2 -> reachable_from w0 w2.
Proof.
  intros (l1 & a1 & H1) (l2 & a2 & H2).
  exists (l1 ++ l2), (a1 ++ a2). eapply exec_app; eauto.
Qed.

(** A property kept by every step holds along every schedule. *)
Lemma exec_invariant (P : world -> Prop) :
  (forall l w w' acts, P w -> step l w = Some (w', acts) -> P w') ->
  forall ls w0 w acts, P w0 -> exec ls w0 = Some (w, acts) -> P w.
Proof.
  intros Hstep. induction ls as [|l ls IH]; intros w0 w acts H0 H; simpl in H.
  - now injection H as <- _.
  - destruct (step l w0) as [[w' a]|] eqn:E; [|discriminate].
    destruct (exec ls w') as [[w'' a']|] eqn:E'; [|discriminate].
    injection H as <- _. eapply IH; [|exact E']. eapply Hstep; eauto.
Qed.

Lemma reachable_invariant (P : world -> Prop) keepAlive maxConns :
  P (NewSQLServer keepAlive maxConns) ->
  (forall l w w' acts, P w -> step l w = Some (w', acts) -> P w') ->
  forall w, reachable keepAlive maxConns w -> P w.
Proof.
  intros H0 Hstep w (ls & acts & H). eapply exec_invariant; eauto.
Qed.

Lemma Close_clients_spec result cs errs :
  Close_clients result cs errs = (errs ++ omap result cs, ClientClose <$> cs).
Proof.
  revert errs. induction cs as [|c cs IH]; intros errs; simpl.
  - now rewrite app_nil_r.
  - rewrite IH. destruct (result c); simpl; [|reflexivity].
    now rewrite <- app_assoc.
Qed.

(** *** The decision of [onConn] *)

Lemma onConn_enter_rejected conn mu :
  maxConnections mu <> 0 ->
  maxConnections mu <= wrap (Z.of_nat (size (clients mu))) ->
  onConn_enter conn mu = (mu, Rejected, [MuLock; MuUnlock; SockClose conn]).
Proof.
  intros Hne Hle. unfold onConn_enter.
  destruct (Z.eqb_spec (maxConnections mu) 0); [contradiction|].
  destruct (Z.leb_spec (maxConnections mu) (wrap (Z.of_nat (size (clients mu)))));
    [reflexivity|lia].
Qed.

Lemma onConn_enter_registered conn mu :
  maxConnections mu = 0 \/
  wrap (Z.of_nat (size (clients mu))) < maxConnections mu ->
  onConn_enter conn mu =
    (mkServerState (tcpKeepAlive mu) (incr (connID mu)) (maxConnections mu)
                   (<[connID mu := NewClientConnection conn (connID mu)]> (clients mu)),
     Registered (connID mu) (NewClientConnection conn (connID mu)),
     [MuLock; MapStore (connID mu) (NewClientConnection conn (connID mu)); MuUnlock]).
Proof.
  intros H. unfold onConn_enter.
  destruct (Z.eqb_spec (maxConnections mu) 0); [reflexivity|].
  destruct (Z.leb_spec (maxConnections mu) (wrap (Z.of_nat (size (clients mu)))));
    [lia|reflexivity].
Qed.

Lemma onConn_enter_cases conn mu :
  (maxConnections mu <> 0 /\
   maxConnections mu <= wrap (Z.of_nat (size (clients mu))) /\
   onConn_enter conn mu = (mu, Rejected, [MuLock; MuUnlock; SockClose conn]))
  \/
  ((maxConnections mu = 0 \/
    wrap (Z.of_nat (size (clients mu))) < maxConnections mu) /\
   onConn_enter conn mu =
    (mkServerState (tcpKeepAlive mu) (incr (connID mu)) (maxConnections mu)
                   (<[connID mu := NewClientConnection conn (connID mu)]> (clients mu)),
     Registered (connID mu) (NewClientConnection conn (connID mu)),
     [MuLock; MapStore (connID mu) (NewClientConnection conn (connID mu)); MuUnlock])).
Proof.
  destruct (Z.eq_dec (maxConnections mu) 0) as [E|E].
  - right. split; [now left|]. apply onConn_enter_registered. now left.
  - destruct (Z_le_gt_dec (maxConnections mu) (wrap (Z.of_nat (size (clients mu))))).
    + left. repeat split; auto. now apply onConn_enter_rejected.
    + right. split; [right; lia|]. apply onConn_enter_registered. right; lia.
Qed.

(** Case analysis on one step: which line of the code ran. *)
Ltac step_cases H :=
  match type of H with
  | step ?l ?w = Some _ =>
      destruct l; unfold step in H;
      repeat match type of H with
        | context [match ?x with _ => _ end] =>
            let E := fresh "E" in destruct x eqn:E; try discriminate H
        end;
      injection H as <- <-; subst; simpl in *
  end.

(** Which branch of [onConn] a handler took. *)
Ltac enter_cases :=
  match goal with
  | E : onConn_enter ?c ?m = _ |- _ =>
      let Hne := fresh "Hne" in
      let Hle := fresh "Hle" in
      let Hc := fresh "Hc" in
      let R := fresh "R" in
      destruct (onConn_enter_cases c m) as [(Hne & Hle & R)|(Hc & R)];
      rewrite R in E; simplify_eq; simpl in *
  end.

Ltac leave_cases :=
  match goal with
  | E : onConn_deferred _ _ = _ |- _ =>
      unfold onConn_deferred in E; simplify_eq; simpl in *
  end.

(** *** The lock *)

Lemma well_locked_app acts1 acts2 :
  well_locked false acts1 = true ->
  well_locked false (acts1 ++ acts2) = well_locked false acts2.
Proof.
  enough (H : forall held, well_locked held acts1 = true ->
                           well_locked held (acts1 ++ acts2)
                           = well_locked false acts2) by apply H.
  induction acts1 as [|a acts1 IH]; intros held H; simpl in *.
  - now destruct held.
  - destruct a, held; simpl in *; try discriminate; auto.
Qed.

Lemma well_locked_Close_clients cs :
  well_locked true ((ClientClose <$> cs) ++ [MuUnlock]) = true.
Proof. induction cs; simpl; auto. Qed.

Lemma step_well_locked l w w' acts :
  step l w = Some (w', acts) -> well_locked false acts = true.
Proof.
  intros H. destruct l; unfold step in H.
  - destruct (runLoop w); try discriminate.
    destruct (listenerOpen w); [|discriminate]. now injection H as <- <-.
  - destruct (runLoop w); try discriminate. now injection H as <- <-.
  - destruct (runLoop w); try discriminate.
    destruct (wg w); [|discriminate]. now injection H as <- <-.
  - destruct (runLoop w); try discriminate. now injection H as <- <-.
  - destruct (handlers w !! i) as [[c| | | |]|]; try discriminate.
    unfold onConn_enter in H.
    destruct (_ && _); now injection H as <- <-.
  - destruct (handlers w !! i) as [[| |ka id cc| |]|]; try discriminate.
    injection H as <- <-. unfold onConn_serve. now destruct ka.
  - destruct (handlers w !! i) as [[| | |id cc|]|]; try discriminate.
    now injection H as <- <-.
  - destruct (handlers w !! i) as [[|c| | |id cc]|]; try discriminate;
      now injection H as <- <-.
  - destruct (closing w); try discriminate. injection H as <- <-.
    now destruct err.
  - destruct (closing w); try discriminate.
    rewrite Close_clients_spec in H. injection H as <- <-.
    simpl. apply well_locked_Close_clients.
  - destruct (closing w); try discriminate.
    destruct (wg w); [|discriminate]. now injection H as <- <-.
Qed.

(** Along every schedule the critical sections of [s.mu] do not overlap and
    the registry is written only inside them. *)
Lemma exec_well_locked ls :
  forall w w' acts, exec ls w = Some (w', acts) -> well_locked false acts = true.
Proof.
  induction ls as [|l ls IH]; intros w w' acts H; simpl in H.
  - now injection H as <- <-.
  - destruct (step l w) as [[w1 a1]|] eqn:E; [|discriminate].
    destruct (exec ls w1) as [[w2 a2]|] eqn:E'; [|discriminate].
    injection H as <- <-.
    rewrite well_locked_app by (eapply step_well_locked; eauto).
    eapply IH; eauto.
Qed.

(** *** The list of handlers *)

(** The handler at position [i], with those before and after it. *)
Lemma handlers_at (l : list handler) i h :
  l !! i = Some h ->
  exists l1 l2,
    l = l1 ++ h :: l2 /\
    (forall h', <[i := h']> l = l1 ++ h' :: l2) /\
    delete i l = l1 ++ l2.
Proof.
  intros Hi. exists (take i l), (drop (S i) l).
  pose proof (lookup_lt_Some _ _ _ Hi) as Hlt.
  split; [symmetry; now apply take_drop_middle|]. split.
  - intros h'. now apply insert_take_drop.
  - apply delete_take_drop.
Qed.

Lemma registration_id (l : list handler) id cc :
  (id, cc) ∈ omap registration l -> id ∈ omap handler_id l.
Proof.
  rewrite !list_elem_of_omap. intros (h & Hh & E). exists h. split; [exact Hh|].
  destruct h; simpl in *; congruence.
Qed.

(** Decomposing the handlers of a world around the one that moves. *)
Ltac at_handler E :=
  match type of E with
  | handlers ?w !! ?i = Some ?h =>
      let l1 := fresh "l1" in
      let l2 := fresh "l2" in
      let Hl := fresh "Hl" in
      let Hins := fresh "Hins" in
      let Hdel := fresh "Hdel" in
      destruct (handlers_at _ _ _ E) as (l1 & l2 & Hl & Hins & Hdel);
      unfold registered, handler_ids in *;
      rewrite ?Hins, ?Hdel; rewrite Hl in *;
      rewrite ?omap_app in *; simpl in *
  end.

(** *** The admission bound *)

Lemma size_insert_le (m : gmap Z ClientConnection) i x :
  (size (<[i := x]> m) <= S (size m))%nat.
Proof.
  destruct (m !! i) eqn:E.
  - rewrite map_size_insert_Some; [lia | eauto].
  - rewrite map_size_insert_None; [lia | done].
Qed.

Lemma size_delete_le (m : gmap Z ClientConnection) i :
  (size (delete i m) <= size m)%nat.
Proof.
  destruct (m !! i) eqn:E.
  - rewrite map_size_delete_Some; [lia | eauto].
  - rewrite delete_id; [lia | done].
Qed.

Lemma within_limit_step l w w' acts :
  within_limit w -> step l w = Some (w', acts) -> within_limit w'.
Proof.
  unfold within_limit. intros [Hr Hb] H.
  step_cases H; try (split; assumption).
  - enter_cases. split; assumption.
  - enter_cases. split; [assumption|]. intros Hne.
    specialize (Hb Hne). destruct Hc as [Hc|Hc]; [contradiction|].
    rewrite wrap_small in Hc by lia.
    pose proof (size_insert_le (clients (mu w)) (connID (mu w))
                  (NewClientConnection conn (connID (mu w)))). lia.
  - leave_cases. split; [assumption|]. intros Hne. specialize (Hb Hne).
    pose proof (size_delete_le (clients (mu w)) id). lia.
Qed.

Lemma within_limit_reachable keepAlive maxConns w :
  reachable keepAlive maxConns w -> within_limit w.
Proof.
  apply reachable_invariant.
  - split; simpl; [apply wrap_range|]. intros _. pose proof (wrap_range maxConns).
    rewrite map_size_empty. simpl. lia.
  - intros; eapply within_limit_step; eauto.
Qed.

Lemma full_house_reachable : reachable false 2 full_house.
Proof. exists full_house_schedule. eexists. vm_compute. reflexivity. Qed.

Lemma half_gone_reachable : reachable false 0 half_gone.
Proof. exists half_gone_schedule. eexists. vm_compute. reflexivity. Qed.

Lemma after_hours_reachable : reachable false 2 after_hours.
Proof. exists after_hours_schedule. eexists. vm_compute. reflexivity. Qed.

(** Three sockets accepted at once by a server with [maxConnections = 2]:
    two are served, the third is closed and nothing is run on it. *)
Example three_sockets_limit_two :
  exec [Accept 7; Spawn; Accept 8; Spawn; Accept 9; Spawn;
        Enter 2; Serve 2; Enter 1; Serve 1; Enter 0; Exit 0]
       (NewSQLServer false 2)
  = Some (mkWorld (mkServerState false 2 2
                     (<[1 := NewClientConnection 8 1]>
                        (<[0 := NewClientConnection 7 0]> ∅)))
                  true 2 AccLoop
                  [Serving 1 (NewClientConnection 8 1);
                   Serving 0 (NewClientConnection 7 0)]
                  ClNotCalled [0; 1],
          [WgAdd; WgAdd; WgAdd;
           MuLock; MapStore 0 (NewClientConnection 7 0); MuUnlock;
           ClientRun (NewClientConnection 7 0);
           MuLock; MapStore 1 (NewClientConnection 8 1); MuUnlock;
           ClientRun (NewClientConnection 8 1);
           MuLock; MuUnlock; SockClose 9; WgDone]).
Proof. vm_compute. reflexivity. Qed.

(** Without a limit the third socket is served as well. *)
Example three_sockets_no_limit :
  (fun r => match r with Some (w, _) => Some (handlers w) | None => None end)
    (exec [Accept 7; Spawn; Accept 8; Spawn; Accept 9; Spawn;
           Enter 2; Serve 2; Enter 1; Serve 1; Enter 0; Serve 0]
          (NewSQLServer false 0))
  = Some [Serving 2 (NewClientConnection 9 2);
          Serving 1 (NewClientConnection 8 1);
          Serving 0 (NewClientConnection 7 0)].
Proof. vm_compute. reflexivity. Qed.

(** C2. In every reachable state of a server with a nonzero
    [maxConnections] the registry holds at most [maxConnections] connections.
    [onConn] decides inside one [Lock]/[Unlock] pair: with the count at or
    above the limit it registers nothing, releases the lock and closes the
    socket, and nothing is written to it; otherwise the connection is stored
    in the registry before [Unlock]. With [maxConnections = 0] no connection
    is rejected. *)
Theorem onConn_enforces_maxConnections keepAlive maxConns w :
  reachable keepAlive maxConns w ->
  let limit := maxConnections (mu w) in
  let count := Z.of_nat (size (clients (mu w))) in
  (limit <> 0 -> count <= limit) /\
  (forall conn,
      limit <> 0 -> limit <= count ->
      onConn_enter conn (mu w)
        = (mu w, Rejected, [MuLock; MuUnlock; SockClose conn]) /\
      existsb writes_protocol_bytes [MuLock; MuUnlock; SockClose conn] = false) /\
  (forall conn,
      limit = 0 \/ count < limit ->
      exists mu',
        onConn_enter conn (mu w)
          = (mu', Registered (connID (mu w)) (NewClientConnection conn (connID (mu w))),
             [MuLock;
              MapStore (connID (mu w)) (NewClientConnection conn (connID (mu w)));
              MuUnlock]) /\
        clients mu' !! connID (mu w)
          = Some (NewClientConnection conn (connID (mu w))) /\
        maxConnections mu' = limit) /\
  (limit = 0 -> forall conn, (onConn_enter conn (mu w)).1.2 <> Rejected).
Proof.
  intros Hr. destruct (within_limit_reachable _ _ _ Hr) as [Hrange Hb].
  cbv zeta. repeat split.
  - exact Hb.
  - apply onConn_enter_rejected; [assumption|].
    rewrite wrap_small; [assumption|]. specialize (Hb H). lia.
  - intros conn Hc. eexists. rewrite onConn_enter_registered.
    + split; [reflexivity|]. simpl. split; [apply lookup_insert_eq|reflexivity].
    + destruct Hc as [Hc|Hc]; [now left|].
      destruct (Z.eq_dec (maxConnections (mu w)) 0) as [E|E]; [now left|right].
      rewrite wrap_small; [assumption|]. specialize (Hb E). lia.
  - intros H0 conn. rewrite onConn_enter_registered by now left. discriminate.
Qed.

Lemma onConn_enforces_maxConnections_witness :
  reachable false 2 full_house /\
  onConn_enter 9%nat (mu full_house)
    = (mu full_house, Rejected, [MuLock; MuUnlock; SockClose 9%nat]).
Proof.
  split; [exact full_house_reachable|].
  refine (proj1 (proj1 (proj2 (onConn_enforces_maxConnections
                                 false 2 full_house full_house_reachable))
                  9%nat _ _)).
  - vm_compute. discriminate.
  - vm_compute. discriminate.
Defined.

(** *** Connection ids *)

Lemma seqZ_snoc n : 0 <= n -> seqZ 0 (n + 1) = seqZ 0 n ++ [n].
Proof. intros Hn. rewrite seqZ_app by lia. reflexivity. Qed.

Lemma ids_in_order_step l w w' acts :
  ids_in_order w -> step l w = Some (w', acts) -> ids_in_order w'.
Proof.
  unfold ids_in_order. intros [Hc Hi] H.
  step_cases H; try (split; assumption).
  - enter_cases. split; assumption.
  - enter_cases. rewrite length_app. simpl.
    replace (Z.of_nat (length (issued w) + 1)) with (Z.of_nat (length (issued w)) + 1)
      by lia.
    rewrite seqZ_snoc by lia. rewrite fmap_app. simpl.
    rewrite Hc at 1. rewrite incr_wrap. split; [reflexivity|].
    rewrite <- Hi. now rewrite Hc.
  - leave_cases. split; assumption.
Qed.

Lemma ids_in_order_reachable keepAlive maxConns w :
  reachable keepAlive maxConns w -> ids_in_order w.
Proof.
  apply reachable_invariant.
  - split; reflexivity.
  - intros; eapply ids_in_order_step; eauto.
Qed.

(** Before the counter wraps the ids handed out are [0, 1, 2, ...]. *)
Lemma issued_before_wrap w :
  ids_in_order w -> Z.of_nat (length (issued w)) <= modulus ->
  forall i a, issued w !! i = Some a -> a = Z.of_nat i.
Proof.
  intros [_ Hi] Hlen i a Ha. rewrite Hi in Ha.
  rewrite list_lookup_fmap in Ha.
  destruct (seqZ 0 (Z.of_nat (length (issued w))) !! i) as [k|] eqn:E;
    [|discriminate].
  apply lookup_seqZ in E as [-> Hlt]. simpl in Ha. injection Ha as <-.
  apply wrap_small. lia.
Qed.

(** *** Connections that come and go: the counter after [n] visits *)

Lemma visit_exec keepAlive m r n c :
  0 <= n -> m !! wrap n = None ->
  exists acts,
    exec (visit c) (quiescent keepAlive m r n)
    = Some (quiescent keepAlive m r (n + 1), acts).
Proof.
  intros Hn Hm. unfold visit, quiescent. simpl.
  rewrite delete_insert_eq, delete_id by exact Hm.
  rewrite incr_wrap, seqZ_snoc, fmap_app by exact Hn.
  eexists. reflexivity.
Qed.

Lemma visits_exec keepAlive m r c k :
  forall n, 0 <= n ->
    (forall j, n <= j < n + Z.of_nat k -> m !! wrap j = None) ->
    exists acts,
      exec (visits k c) (quiescent keepAlive m r n)
      = Some (quiescent keepAlive m r (n + Z.of_nat k), acts).
Proof.
  induction k as [|k IH]; intros n Hn Hfree.
  - exists []. simpl. now rewrite Z.add_0_r.
  - destruct (visit_exec keepAlive m r n c Hn) as [a1 H1].
    { apply Hfree. lia. }
    destruct (IH (n + 1)) as [a2 H2]; [lia| |].
    { intros j Hj. apply Hfree. lia. }
    exists (a1 ++ a2). change (visits (S k) c) with (visit c ++ visits k c).
    rewrite (exec_app _ _ _ _ _ _ _ H1 H2). do 3 f_equal. lia.
Qed.

Lemma issued_quiescent keepAlive m r n :
  issued (quiescent keepAlive m r n) = wrap <$> seqZ 0 n.
Proof. reflexivity. Qed.

Lemma quiescent_reachable keepAlive n :
  0 <= n -> reachable keepAlive 0 (quiescent keepAlive ∅ [] n).
Proof.
  intros Hn.
  destruct (visits_exec keepAlive ∅ [] 0%nat (Z.to_nat n) 0) as [acts H]; [lia| |].
  { intros j _. apply lookup_empty. }
  exists (visits (Z.to_nat n) 0%nat), acts.
  rewrite Z2Nat.id, Z.add_0_l in H by exact Hn. exact H.
Qed.

(** C7, as amended. Ids come from the counter of [serverState], which
    [onConn] reads and increments between [Lock] and [Unlock]. As long as at
    most [2^64] connections have been registered, a connection registered
    later has a strictly larger id than one registered earlier, so no two
    share an id; a rejected connection leaves the counter as it was. *)
Theorem connID_increasing_before_wrap keepAlive maxConns w :
  reachable keepAlive maxConns w ->
  Z.of_nat (length (issued w)) <= modulus ->
  (forall i j a b,
      issued w !! i = Some a -> issued w !! j = Some b -> (i < j)%nat -> a < b) /\
  NoDup (issued w) /\
  (forall conn mu' acts,
      onConn_enter conn (mu w) = (mu', Rejected, acts) -> mu' = mu w) /\
  (forall conn mu' id cc acts,
      onConn_enter conn (mu w) = (mu', Registered id cc, acts) ->
      id = connID (mu w) /\ connID mu' = incr id /\
      acts = [MuLock; MapStore id cc; MuUnlock]).
Proof.
  intros Hr Hlen. pose proof (ids_in_order_reachable _ _ _ Hr) as Hids.
  pose proof (issued_before_wrap w Hids Hlen) as Hval.
  repeat split.
  - intros i j a b Ha Hb Hij.
    rewrite (Hval _ _ Ha), (Hval _ _ Hb). lia.
  - apply NoDup_alt. intros i j x Hi Hj.
    apply Hval in Hi, Hj. lia.
  - intros conn mu' acts H.
    destruct (onConn_enter_cases conn (mu w)) as [(_ & _ & R)|(_ & R)];
      rewrite R in H; congruence.
  - destruct (onConn_enter_cases conn (mu w)) as [(_ & _ & R)|(_ & R)];
      rewrite R in H; congruence.
  - destruct (onConn_enter_cases conn (mu w)) as [(_ & _ & R)|(_ & R)];
      rewrite R in H; [discriminate|]. injection H as <- <- <- <-. reflexivity.
  - destruct (onConn_enter_cases conn (mu w)) as [(_ & _ & R)|(_ & R)];
      rewrite R in H; [discriminate|]. injection H as <- <- <- <-. reflexivity.
Qed.

Lemma connID_increasing_before_wrap_witness :
  reachable false 2 full_house /\
  Z.of_nat (length (issued full_house)) <= modulus /\
  NoDup (issued full_house).
Proof.
  assert (Hlen : Z.of_nat (length (issued full_house)) <= modulus)
    by (vm_compute; discriminate).
  split; [exact full_house_reachable|]. split; [exact Hlen|].
  exact (proj1 (proj2 (connID_increasing_before_wrap
                         false 2 full_house full_house_reachable Hlen))).
Defined.

(** C7, as stated, fails: the counter is a [uint64], and the connection
    registered after [2^64] others is given id 0 again, the id of the first
    one. *)
Lemma connID_repeats_after_wrap :
  ~ (forall w, reachable false 0 w ->
       forall i j a b,
         issued w !! i = Some a -> issued w !! j = Some b -> (i < j)%nat ->
         a < b).
Proof.
  intros H.
  assert (Hr : reachable false 0 (quiescent false ∅ [] (modulus + 1))).
  { apply quiescent_reachable. unfold modulus. lia. }
  specialize (H _ Hr 0%nat (Z.to_nat modulus) 0 0).
  assert (0 < 0); [|lia]. apply H.
  - rewrite issued_quiescent, list_lookup_fmap, lookup_seqZ_lt.
    + reflexivity.
    + unfold modulus. lia.
  - rewrite issued_quiescent, list_lookup_fmap, lookup_seqZ_lt.
    + rewrite Z2Nat.id by (unfold modulus; lia). reflexivity.
    + rewrite Z2Nat.id by (unfold modulus; lia). lia.
  - unfold modulus. lia.
Qed.

(** *** The registry and the handlers *)

Lemma registry_is_live_step l w w' acts :
  ids_in_order w ->
  Z.of_nat (length (issued w')) <= modulus ->
  registry_is_live w -> step l w = Some (w', acts) -> registry_is_live w'.
Proof.
  intros Hids Hlen Hlive H.
  pose proof (issued_before_wrap w Hids) as Hval.
  destruct Hids as [Hc _]. unfold registry_is_live, registered, handler_ids in *.
  destruct Hlive as (Hnd & Hreg & Hsub).
  step_cases H; try (split; [assumption|split; assumption]).
  - (* rejected *)
    enter_cases. at_handler E. split; [assumption|split; assumption].
  - (* registered *)
    enter_cases. rewrite length_app in Hlen. simpl in Hlen.
    assert (Hlen' : Z.of_nat (length (issued w)) < modulus) by lia.
    rewrite wrap_small in Hc by lia. rewrite Hc in *.
    set (n := Z.of_nat (length (issued w))) in *.
    at_handler E.
    assert (Hfresh : n ∉ omap handler_id l1 ++ omap handler_id l2).
    { intros Hin. apply Hsub in Hin. apply list_elem_of_lookup in Hin as [k Hk].
      pose proof (lookup_lt_Some _ _ _ Hk). apply Hval in Hk; [|lia].
      subst n. lia. }
    split; [|split].
    + rewrite <- Permutation_middle. now apply NoDup_cons.
    + intros id cc. rewrite <- Permutation_middle, elem_of_cons.
      destruct (decide (n = id)) as [<-|Hne].
      * rewrite lookup_insert_eq. split.
        -- intros [= <-]. now left.
        -- intros [[= <-]|Hin]; [reflexivity|]. exfalso. apply Hfresh.
           rewrite <- omap_app. eapply registration_id.
           rewrite omap_app. exact Hin.
      * rewrite lookup_insert_ne by exact Hne. rewrite Hreg. split.
        -- now right.
        -- intros [[= E' _]|Hin]; [congruence|assumption].
    + intros id. rewrite <- Permutation_middle, elem_of_cons.
      intros [->|Hin]; apply elem_of_app; [right; now left|left; now apply Hsub].
  - (* the handler starts [clientConn.Run] *)
    at_handler E. split; [assumption|split; assumption].
  - (* the deferred delete *)
    leave_cases. at_handler E.
    assert (Hid : id ∉ omap handler_id l1 ++ omap handler_id l2).
    { rewrite <- Permutation_middle in Hnd. now apply NoDup_cons in Hnd as [? _]. }
    split; [exact Hnd|]. split; [|exact Hsub].
    intros id' cc'. destruct (decide (id = id')) as [<-|Hne].
    + rewrite lookup_delete_eq. split; [discriminate|].
      intros Hin. exfalso. apply Hid. rewrite <- omap_app.
      eapply registration_id. rewrite omap_app. exact Hin.
    + rewrite lookup_delete_ne by exact Hne. rewrite Hreg.
      rewrite <- Permutation_middle, elem_of_cons. split.
      * intros [[= E' _]|Hin]; [congruence|assumption].
      * now right.
  - (* a rejected handler is gone *)
    at_handler E. split; [assumption|split; assumption].
  - (* a handler that has deleted its entry is gone *)
    at_handler E. rewrite <- Permutation_middle in Hnd.
    apply NoDup_cons in Hnd as [_ Hnd]. split; [exact Hnd|].
    split; [exact Hreg|]. intros id' Hin. apply Hsub.
    rewrite <- Permutation_middle. now right.
Qed.

Lemma issued_grows l w w' acts :
  step l w = Some (w', acts) -> (length (issued w) <= length (issued w'))%nat.
Proof.
  intros H. step_cases H; rewrite ?length_app; lia.
Qed.

Lemma live_before_wrap_step l w w' acts :
  live_before_wrap w -> step l w = Some (w', acts) -> live_before_wrap w'.
Proof.
  intros [Hids Hlive] H. split; [eapply ids_in_order_step; eauto|].
  intros Hlen. pose proof (issued_grows _ _ _ _ H).
  eapply registry_is_live_step; eauto. apply Hlive. lia.
Qed.

Lemma live_before_wrap_reachable keepAlive maxConns w :
  reachable keepAlive maxConns w -> live_before_wrap w.
Proof.
  apply reachable_invariant.
  - split; [split; reflexivity|]. intros _. repeat split; simpl.
    + constructor.
    + rewrite lookup_empty. discriminate.
    + intros H. inversion H.
    + intros id H. exact H.
  - intros; eapply live_before_wrap_step; eauto.
Qed.

(** A handler that has deleted its entry and has not exited is not in the
    registry. *)
Lemma leaving_not_registered w id cc :
  registry_is_live w -> Leaving id cc ∈ handlers w ->
  clients (mu w) !! id = None.
Proof.
  intros (Hnd & Hreg & _) Hin.
  apply list_elem_of_lookup in Hin as [i Hi].
  destruct (clients (mu w) !! id) as [cc'|] eqn:E; [|reflexivity].
  apply Hreg in E. at_handler Hi.
  rewrite <- Permutation_middle in Hnd. apply NoDup_cons in Hnd as [Hid _].
  exfalso. apply Hid. rewrite <- omap_app. eapply registration_id.
  rewrite omap_app. exact E.
Qed.

Lemma delete_insert_same (l : list handler) i h :
  delete i (<[i := h]> l) = delete i l.
Proof.
  revert i. induction l as [|x l IH]; intros [|i]; simpl; try reflexivity.
  f_equal. apply IH.
Qed.

(** The deferred function of [onConn] is always ready to run, and runs to
    the end: the entry is deleted, then the connection is closed and the
    wait group told. *)
Lemma Leave_Exit_steps w i id cc :
  handlers w !! i = Some (Serving id cc) ->
  exists w1 w2,
    step (Leave i) w = Some (w1, [MuLock; MapDelete id; MuUnlock]) /\
    clients (mu w1) = delete id (clients (mu w)) /\
    handlers w1 = <[i := Leaving id cc]> (handlers w) /\
    wg w1 = wg w /\ closing w1 = closing w /\
    step (Exit i) w1 = Some (w2, [ClientClose cc; WgDone]) /\
    mu w2 = mu w1 /\
    handlers w2 = delete i (handlers w) /\
    wg w2 = pred (wg w) /\ closing w2 = closing w.
Proof.
  intros Hi. pose proof (lookup_lt_Some _ _ _ Hi) as Hlt.
  unfold step. rewrite Hi. simpl. do 2 eexists. split; [reflexivity|].
  simpl. rewrite list_lookup_insert_eq by exact Hlt. simpl.
  rewrite delete_insert_same. repeat split.
Qed.

Lemma long_lived_reachable : reachable false 0 long_lived.
Proof.
  unfold long_lived_schedule, long_lived.
  set (m := {[ 0 := NewClientConnection 7 0 ]} : gmap Z ClientConnection).
  set (r := [Serving 0 (NewClientConnection 7 0)]).
  assert (H1 : exists acts,
             exec [Accept 7; Spawn; Enter 0; Serve 0] (NewSQLServer false 0)
             = Some (quiescent false m r 1, acts)).
  { eexists. vm_compute. reflexivity. }
  destruct H1 as [a1 H1].
  destruct (visits_exec false m r 9%nat (Z.to_nat (modulus - 1)) 1) as [a2 H2];
    [lia| |].
  { intros j Hj. rewrite Z2Nat.id in Hj by (unfold modulus; lia).
    apply lookup_singleton_ne. intros E. symmetry in E. revert E.
    apply wrap_nonzero. lia. }
  rewrite Z2Nat.id in H2 by (unfold modulus; lia).
  replace (1 + (modulus - 1)) with modulus in H2 by lia.
  exists long_lived_schedule, (a1 ++ a2).
  exact (exec_app _ _ _ _ _ _ _ H1 H2).
Qed.

(** C10, as amended. When [clientConn.Run] of a handler returns, its
    deferred function deletes its id from the registry, then closes its
    [ClientConnection], and then the handler is gone. As long as at most
    [2^64] connections have been registered, the handlers that have not
    exited carry different ids, the registry holds exactly the connections
    of the handlers that have registered and have not yet run that delete,
    and a handler that has run it and has not yet exited is not in the
    registry. *)
Theorem registry_holds_registered_handlers_before_wrap keepAlive maxConns w :
  reachable keepAlive maxConns w ->
  (forall i id cc,
      handlers w !! i = Some (Serving id cc) ->
      exists w1 w2,
        step (Leave i) w = Some (w1, [MuLock; MapDelete id; MuUnlock]) /\
        clients (mu w1) !! id = None /\
        handlers w1 !! i = Some (Leaving id cc) /\
        step (Exit i) w1 = Some (w2, [ClientClose cc; WgDone]) /\
        clients (mu w2) !! id = None /\
        handlers w2 = delete i (handlers w)) /\
  (Z.of_nat (length (issued w)) <= modulus ->
   NoDup (handler_ids w) /\
   (forall id cc, clients (mu w) !! id = Some cc <-> (id, cc) ∈ registered w) /\
   (forall id cc, Leaving id cc ∈ handlers w -> clients (mu w) !! id = None)).
Proof.
  intros Hr. split.
  - intros i id cc Hi.
    destruct (Leave_Exit_steps w i id cc Hi)
      as (w1 & w2 & H1 & Hm1 & Hh1 & _ & _ & H2 & Hm2 & Hh2 & _).
    exists w1, w2. split; [exact H1|]. split.
    { rewrite Hm1. apply lookup_delete_eq. }
    split.
    { rewrite Hh1. apply list_lookup_insert_eq. eapply lookup_lt_Some; eauto. }
    split; [exact H2|]. split; [|exact Hh2].
    rewrite Hm2, Hm1. apply lookup_delete_eq.
  - intros Hlen. destruct (live_before_wrap_reachable _ _ _ Hr) as [_ Hlive].
    specialize (Hlive Hlen). pose proof Hlive as (Hnd & Hreg & _).
    split; [exact Hnd|]. split; [exact Hreg|].
    intros id cc. now apply leaving_not_registered.
Qed.

Lemma registry_holds_registered_handlers_before_wrap_witness :
  reachable false 0 half_gone /\
  Z.of_nat (length (issued half_gone)) <= modulus /\
  Leaving 0 (NewClientConnection 7 0) ∈ handlers half_gone /\
  clients (mu half_gone) !! 0 = None.
Proof.
  assert (Hlen : Z.of_nat (length (issued half_gone)) <= modulus)
    by (vm_compute; discriminate).
  assert (Hin : Leaving 0 (NewClientConnection 7 0) ∈ handlers half_gone)
    by (simpl; left).
  split; [exact half_gone_reachable|]. split; [exact Hlen|].
  split; [exact Hin|].
  exact (proj2 (proj2 (proj2 (registry_holds_registered_handlers_before_wrap
                                false 0 half_gone half_gone_reachable) Hlen))
           0 (NewClientConnection 7 0) Hin).
Defined.

Lemma register_when_quiescent keepAlive m r n c :
  exists w acts,
    exec [Accept c; Spawn; Enter 0] (quiescent keepAlive m r n) = Some (w, acts) /\
    clients (mu w) = <[wrap n := NewClientConnection c (wrap n)]> m /\
    handlers w = Listed keepAlive (wrap n) (NewClientConnection c (wrap n)) :: r.
Proof.
  unfold quiescent. simpl. do 2 eexists. split; [reflexivity|].
  split; reflexivity.
Qed.

(** The connection registered after [2^64] others is given id 0 and takes
    the registry slot of the first connection, whose handler is still in
    [clientConn.Run]. *)
Lemma registered_handler_replaced_after_wrap :
  ~ (forall w, reachable false 0 w ->
       forall id cc,
         clients (mu w) !! id = Some cc <-> (id, cc) ∈ registered w).
Proof.
  intros H.
  assert (Hex : exists w acts,
             exec id_reused_schedule long_lived = Some (w, acts) /\
             clients (mu w) !! 0 = Some (NewClientConnection 8 0) /\
             (0, NewClientConnection 7 0) ∈ registered w).
  { destruct (register_when_quiescent false
                {[ 0 := NewClientConnection 7 0 ]}
                [Serving 0 (NewClientConnection 7 0)] modulus 8%nat)
      as (w & acts & Hexec & Hreg & Hrun).
    exists w, acts. split; [exact Hexec|].
    unfold registered. rewrite Hreg, Hrun, wrap_modulus. split.
    - apply lookup_insert_eq.
    - simpl. right. left. }
  destruct Hex as (w & acts & Hexec & Hreg & Hrun).
  assert (Hr : reachable false 0 w).
  { eapply reachable_from_trans; [exact long_lived_reachable|].
    now exists id_reused_schedule, acts. }
  apply (H w Hr) in Hrun. rewrite Hreg in Hrun. discriminate.
Qed.

(** C10, as stated, fails. A handler whose deferred function has deleted
    its entry has not exited (it has yet to close its [ClientConnection]
    and return), and the registry no longer holds its connection. And with
    the handlers counted up to that delete only, the registry still misses
    one of them once more than [2^64] connections have been registered. *)
Lemma registry_misses_handler_before_exit :
  ~ (forall w, reachable false 0 w ->
       forall id cc,
         clients (mu w) !! id = Some cc <-> (id, cc) ∈ not_exited w) /\
  ~ (forall w, reachable false 0 w ->
       forall id cc,
         clients (mu w) !! id = Some cc <-> (id, cc) ∈ registered w).
Proof.
  split; [|exact registered_handler_replaced_after_wrap].
  intros H.
  assert (Hin : (0, NewClientConnection 7 0) ∈ not_exited half_gone)
    by (unfold not_exited; simpl; left).
  apply (H half_gone half_gone_reachable) in Hin. discriminate.
Qed.

(** *** Shutdown *)

(** A shutdown in which one of two connections fails to close: both are
    closed, the handlers leave, and [Close] returns the collected error. *)
Example Close_collects_errors :
  (fun r => match r with
            | Some (w, _) => Some (closing w, handlers w, clients (mu w))
            | None => None
            end)
    (exec [CloseListener None;
           CloseClients (fun cc => if decide (cc_connID cc = 0)
                                   then Some "broken pipe"%string else None);
           Leave 0; Exit 0; Leave 0; Exit 0; CloseWait] full_house)
  = Some (ClReturned (Some (ErrCloseServer, ["broken pipe"%string])), [], ∅).
Proof. vm_compute. reflexivity. Qed.

(** [Close] does not return while a handler is running, nor while a handler
    that has left the registry has yet to return. *)
Example Close_blocks_on_running_handler :
  exec [CloseListener None; CloseClients (fun _ => None); Leave 0; Exit 0;
        CloseWait] full_house = None /\
  exec [CloseListener None; CloseClients (fun _ => None); Leave 0; Exit 0;
        Leave 0; CloseWait] full_house = None.
Proof. split; vm_compute; reflexivity. Qed.

Lemma Collect_None cerr errs : Collect cerr errs = None <-> errs = [].
Proof. destruct errs; simpl; split; congruence. Qed.

Lemma wg_counts_handlers_step l w w' acts :
  wg_counts_handlers w -> step l w = Some (w', acts) -> wg_counts_handlers w'.
Proof.
  unfold wg_counts_handlers. intros Hw H.
  step_cases H; rewrite ?length_insert; try exact Hw.
  - now rewrite Hw.
  - rewrite length_delete by eauto. lia.
  - rewrite length_delete by eauto. lia.
Qed.

Lemma wg_counts_handlers_reachable keepAlive maxConns w :
  reachable keepAlive maxConns w -> wg_counts_handlers w.
Proof.
  apply reachable_invariant; [reflexivity|].
  intros; eapply wg_counts_handlers_step; eauto.
Qed.

(** [Close] closes every registered connection and keeps every error. *)
Lemma Close_closes_every_registered_connection w result errs :
  closing w = ClListenerClosed errs ->
  step (CloseClients result) w
  = Some (mkWorld (mu w) (listenerOpen w) (wg w) (runLoop w) (handlers w)
                  (ClWaiting (errs ++ omap result (snd <$> map_to_list (clients (mu w)))))
                  (issued w),
          [MuLock] ++ (ClientClose <$> (snd <$> map_to_list (clients (mu w))))
            ++ [MuUnlock]).
Proof. intros H. unfold step. rewrite H, Close_clients_spec. reflexivity. Qed.

(** [s.wg.Wait()] lets [Close] return only when every handler that was
    started has returned. *)
Lemma Close_waits_for_started_handlers keepAlive maxConns w w' acts :
  reachable keepAlive maxConns w ->
  step CloseWait w = Some (w', acts) ->
  handlers w' = [] /\
  exists errs, closing w = ClWaiting errs /\
               closing w' = ClReturned (Collect ErrCloseServer errs).
Proof.
  intros Hr H. apply wg_counts_handlers_reachable in Hr.
  unfold wg_counts_handlers in Hr. unfold step in H.
  destruct (closing w) as [| |errs|] eqn:Ec; try discriminate.
  destruct (wg w) eqn:Ew; [|discriminate].
  injection H as <- <-. simpl.
  destruct (handlers w); simpl in Hr; try lia. eauto.
Qed.

(** C4: the schedule in which [Accept] has returned socket 7 when [Close]
    runs. [Close] finds the registry empty and the wait group at zero and
    returns [nil]; line 102 then starts the handler, which registers the
    connection and runs it. *)
Theorem Close_returns_before_pending_handler :
  exec (overtaking_schedule 7) (NewSQLServer false 0)
  = Some (mkWorld (mkServerState false 1 0 {[ 0 := NewClientConnection 7 0 ]})
                  false 1 AccLoop [Serving 0 (NewClientConnection 7 0)]
                  (ClReturned None) [0],
          [ListenerClose; MuLock; MuUnlock; CloseReturns None;
           WgAdd; MuLock; MapStore 0 (NewClientConnection 7 0); MuUnlock;
           ClientRun (NewClientConnection 7 0)]).
Proof. vm_compute. reflexivity. Qed.

(** So it is not an invariant that no handler is running once [Close] has
    returned. *)
Lemma handler_runs_after_Close :
  ~ (forall w, reachable false 0 w ->
       forall res, closing w = ClReturned res -> handlers w = []).
Proof.
  intros H.
  assert (Hr : reachable false 0
                 (mkWorld (mkServerState false 1 0 {[ 0 := NewClientConnection 7 0 ]})
                          false 1 AccLoop [Serving 0 (NewClientConnection 7 0)]
                          (ClReturned None) [0])).
  { exists (overtaking_schedule 7). eexists. vm_compute. reflexivity. }
  specialize (H _ Hr None eq_refl). discriminate.
Qed.

End SQLServerFacts.


Module HttpApiFacts.

Import HttpApi.

Local Open Scope string_scope.
Local Open Scope Z_scope.
Local Open Scope list_scope.

Lemma JSON_answers c r : answers c (JSON c StatusOK r) r.
Proof. split; reflexivity. Qed.

Section Handlers.

Context {Mgr NsCfg Err : Type}.
Variable RemoveNamespace : string -> Mgr -> Mgr.
Variable GetNamespace : string -> NsCfg + Err.
Variable PrepareReloadNamespace : string -> NsCfg -> Mgr -> Mgr * option Err.
Variable CommitReloadNamespaces : list string -> Mgr -> Mgr * option Err.
Variable RedirectConnections : Mgr -> Mgr * option Err.

Abbreviation handler :=
  (route_handler RemoveNamespace GetNamespace PrepareReloadNamespace
                 CommitReloadNamespaces RedirectConnections).

Abbreviation outcome_of :=
  (outcome GetNamespace PrepareReloadNamespace CommitReloadNamespaces
           RedirectConnections).

Lemma handler_answers r n c : answers c (snd (handler r n c)) (outcome_of r n c).
Proof.
  destruct r; simpl;
    unfold HandleRemoveNamespace, HandlePrepareReload, HandleCommitReload,
           Redirect, outcome.
  - destruct (Param c ParamNamespace =? "")%string; apply JSON_answers.
  - destruct (Param c ParamNamespace =? "")%string; [apply JSON_answers|].
    destruct (GetNamespace _) as [nscfg|e]; [|apply JSON_answers].
    destruct (PrepareReloadNamespace _ _ _) as [n' [e|]]; apply JSON_answers.
  - destruct (Param c ParamNamespace =? "")%string; [apply JSON_answers|].
    destruct (CommitReloadNamespaces _ _) as [n' [e|]]; apply JSON_answers.
  - destruct (RedirectConnections _) as [n' [e|]]; apply JSON_answers.
Qed.

Lemma outcome_code r n c :
  outcome_of r n c = CreateSuccessJsonResp \/
  (Code (outcome_of r n c) = 400 /\ Msg (outcome_of r n c) <> "success") \/
  (Code (outcome_of r n c) = 500 /\ Msg (outcome_of r n c) <> "success").
Proof.
  unfold outcome. destruct r.
  - destruct (_ =? _)%string; [right; left|left]; easy.
  - destruct (_ =? _)%string; [right; left; easy|].
    destruct (GetNamespace _); [|right; right; easy].
    destruct (snd _); [right; right|left]; easy.
  - destruct (_ =? _)%string; [right; left; easy|].
    destruct (snd _); [right; right|left]; easy.
  - destruct (snd _); [right; right|left]; easy.
Qed.

(** C8. Whatever the request and whatever the namespace manager and the
    config center return, each of the three namespace handlers and the test
    redirect handler writes exactly one response: HTTP status 200 with the
    JSON object [{code, msg}]. The body is [{200, success}] when the
    operation succeeded, carries code 400 when the namespace parameter is
    empty, and code 500 when a call returned an error. *)
Theorem handlers_always_answer_200 (r : route) (n : Mgr) (c : ginContext) :
  let c' := snd (handler r n c) in
  let body := outcome_of r n c in
  Written c' = Written c ++ [RespJSON 200 [("code", JInt (Code body));
                                           ("msg", JString (Msg body))]] /\
  ((Code body = 200 /\ Msg body = "success") \/
   (Code body = 400 /\ Msg body <> "success") \/
   (Code body = 500 /\ Msg body <> "success")) /\
  (r <> PostTestRedirect ->
   Param c ParamNamespace = "" -> Code body = 400) /\
  (Code body = 200 <->
   match r with
   | PostRemove => Param c ParamNamespace <> ""
   | PostPrepareReload =>
       Param c ParamNamespace <> "" /\
       exists nscfg, GetNamespace (Param c ParamNamespace) = inl nscfg /\
         snd (PrepareReloadNamespace (Param c ParamNamespace) nscfg n) = None
   | PostCommitReload =>
       Param c ParamNamespace <> "" /\
       snd (CommitReloadNamespaces [Param c ParamNamespace] n) = None
   | PostTestRedirect => snd (RedirectConnections n) = None
   end).
Proof.
  cbv zeta. split; [apply handler_answers|]. split.
  { destruct (outcome_code r n c) as [->|H]; [left; easy|right; exact H]. }
  split.
  { intros Hr Hns. unfold outcome. rewrite Hns. destruct r; easy. }
  unfold outcome. destruct r.
  - destruct (String.eqb_spec (Param c ParamNamespace) ""); simpl; easy.
  - destruct (String.eqb_spec (Param c ParamNamespace) ""); simpl; [easy|].
    destruct (GetNamespace _) as [nscfg|e].
    + destruct (snd (PrepareReloadNamespace _ _ _)) eqn:E; simpl.
      * split; [easy|]. intros [_ (cfg' & [= <-] & H)]. congruence.
      * split; [|easy]. intros _. split; [easy|]. now exists nscfg.
    + simpl. split; [easy|]. intros [_ (cfg' & H & _)]. discriminate.
  - destruct (String.eqb_spec (Param c ParamNamespace) ""); simpl; [easy|].
    destruct (snd _); simpl; easy.
  - destruct (snd _); simpl; easy.
Qed.

Lemma wrapBasicAuthGinMiddleware_installed cfg group :
  User cfg <> "" -> Password cfg <> "" ->
  wrapBasicAuthGinMiddleware cfg group
  = Use group (BasicAuth [(User cfg, Password cfg)]).
Proof.
  intros Hu Hp. unfold wrapBasicAuthGinMiddleware.
  destruct (String.eqb_spec (User cfg) ""); [contradiction|].
  destruct (String.eqb_spec (Password cfg) ""); [contradiction|]. reflexivity.
Qed.

Lemma wrapBasicAuthGinMiddleware_absent cfg group :
  User cfg = "" \/ Password cfg = "" ->
  wrapBasicAuthGinMiddleware cfg group = group.
Proof.
  intros H. unfold wrapBasicAuthGinMiddleware.
  destruct (String.eqb_spec (User cfg) ""); [reflexivity|].
  destruct (String.eqb_spec (Password cfg) ""); [reflexivity|].
  destruct H; contradiction.
Qed.

(** C9. The namespace route group carries [gin.BasicAuth] exactly when the
    configured admin user and password are both non-empty. If either is
    empty the group has only the engine's middleware: every request to the
    three namespace routes, with or without credentials, reaches its handler
    and is answered with HTTP 200, never 401. *)
Theorem namespace_routes_open_without_credentials
        (cfg : AdminServer) (r : route) (n : Mgr) (c : ginContext) :
  User cfg = "" \/ Password cfg = "" ->
  r <> PostTestRedirect ->
  Handlers (route_group cfg r) = [Recovery] /\
  serve (Handlers (route_group cfg r)) (handler r) n c = handler r n c /\
  (exists body,
      Written (snd (serve (Handlers (route_group cfg r)) (handler r) n c))
      = Written c ++ [RespJSON 200 body]) /\
  Forall (fun resp => resp_status resp <> Some StatusUnauthorized)
         (drop (length (Written c))
               (Written (snd (serve (Handlers (route_group cfg r)) (handler r) n c)))).
Proof.
  intros Hcfg Hr.
  assert (Hg : Handlers (route_group cfg r) = [Recovery]).
  { destruct r; try contradiction; unfold route_group, namespaceRouteGroup;
      now rewrite wrapBasicAuthGinMiddleware_absent. }
  rewrite Hg. simpl serve.
  destruct (handler_answers r n c) as [_ Hw].
  repeat split.
  - eexists. exact Hw.
  - rewrite Hw, drop_app_length. repeat constructor. discriminate.
Qed.

(** [gin.BasicAuth] with one account. *)
Lemma authorizationHeader_nonempty user password :
  authorizationHeader user password <> "".
Proof. discriminate. Qed.

Lemma searchCredential_one user password authValue :
  searchCredential [(user, password)] authValue
  = if (authorizationHeader user password =? authValue)%string
    then Some user else None.
Proof.
  cbn [searchCredential].
  destruct (String.eqb_spec authValue "") as [->|Hne]; [reflexivity|].
  now destruct (authorizationHeader user password =? authValue)%string.
Qed.

(** With both set, the middleware is installed and turns away a request
    whose [Authorization] header is not the one of the configured
    account. *)
Lemma namespace_routes_guarded_with_credentials
      (cfg : AdminServer) (r : route) (n : Mgr) (c : ginContext) :
  User cfg <> "" -> Password cfg <> "" ->
  r <> PostTestRedirect ->
  Handlers (route_group cfg r) = [Recovery; BasicAuth [(User cfg, Password cfg)]] /\
  (Authorization c <> authorizationHeader (User cfg) (Password cfg) ->
   Written (snd (serve (Handlers (route_group cfg r)) (handler r) n c))
   = Written c ++ [RespHeader "WWW-Authenticate" basicRealm;
                   RespAbort StatusUnauthorized]).
Proof.
  intros Hu Hp Hr.
  assert (Hg : Handlers (route_group cfg r)
               = [Recovery; BasicAuth [(User cfg, Password cfg)]]).
  { destruct r; try contradiction; unfold route_group, namespaceRouteGroup;
      now rewrite wrapBasicAuthGinMiddleware_installed. }
  rewrite Hg. split; [reflexivity|]. intros Hc.
  change (serve [Recovery; BasicAuth [(User cfg, Password cfg)]] (handler r) n c)
    with (match searchCredential [(User cfg, Password cfg)] (Authorization c) with
          | Some user => handler r n (SetKey c AuthUserKey user)
          | None => (n, AbortWithHeader c "WWW-Authenticate" basicRealm
                                        StatusUnauthorized)
          end).
  rewrite searchCredential_one.
  destruct (String.eqb_spec (authorizationHeader (User cfg) (Password cfg))
                            (Authorization c)) as [E|_]; [congruence|].
  reflexivity.
Qed.

(** The encoding is the standard one. *)
Example EncodeToString_examples :
  EncodeToString "admin:secret" = "YWRtaW46c2VjcmV0" /\
  EncodeToString "Aladdin:open sesame" = "QWxhZGRpbjpvcGVuIHNlc2FtZQ==" /\
  EncodeToString "a:b" = "YTpi" /\
  EncodeToString "ab" = "YWI=" /\
  EncodeToString "" = "".
Proof. repeat split; reflexivity. Qed.

End Handlers.

(** A request without the namespace parameter. *)
Example remove_without_namespace :
  Written (snd (route_handler
                  (fun _ (m : unit) => m) (fun _ => @inr unit unit tt)
                  (fun _ _ m => (m, None)) (fun _ m => (m, None))
                  (fun m => (m, None)) PostRemove tt
                  (mkContext [] "" [] [])))
  = [RespJSON 200 [("code", JInt 400);
                   ("msg", JString "bad namespace parameter")]].
Proof. reflexivity. Qed.

(** A redirect that fails. *)
Example redirect_failure :
  Written (snd (route_handler
                  (fun _ (m : unit) => m) (fun _ => @inr unit unit tt)
                  (fun _ _ m => (m, None)) (fun _ m => (m, None))
                  (fun m => (m, Some tt)) PostTestRedirect tt
                  (mkContext [] "" [] [])))
  = [RespJSON 200 [("code", JInt 500);
                   ("msg", JString "redirect connections error")]].
Proof. reflexivity. Qed.

Lemma handlers_always_answer_200_witness :
  let c := mkContext [("namespace", "ns1")] "" [] [] in
  Written (snd (route_handler
                  (fun _ (m : unit) => m) (fun _ => @inr unit unit tt)
                  (fun _ _ m => (m, None)) (fun _ m => (m, None))
                  (fun m => (m, None)) PostPrepareReload tt c))
  = [RespJSON 200 [("code", JInt 500);
                   ("msg", JString "get namespace value from configcenter error")]].
Proof.
  cbv zeta.
  exact (proj1 (handlers_always_answer_200
                  (fun _ (m : unit) => m) (fun _ => @inr unit unit tt)
                  (fun _ _ m => (m, None)) (fun _ m => (m, None))
                  (fun m => (m, None)) PostPrepareReload tt
                  (mkContext [("namespace", "ns1")] "" [] []))).
Defined.

Lemma namespace_routes_open_without_credentials_witness :
  (User (mkAdminServer ":3080" "admin" "") = ""
   \/ Password (mkAdminServer ":3080" "admin" "") = "") /\
  serve (Handlers (route_group (mkAdminServer ":3080" "admin" "") PostRemove))
        (route_handler (fun _ (m : unit) => m) (fun _ => inl tt)
                       (fun _ (_ : unit) m => (m, @None unit))
                       (fun _ m => (m, None)) (fun m => (m, None)) PostRemove)
        tt (mkContext [("namespace", "ns1")] "" [] [])
  = (tt, mkContext [("namespace", "ns1")] "" []
                   [RespJSON 200 [("code", JInt 200); ("msg", JString "success")]]).
Proof.
  assert (H : User (mkAdminServer ":3080" "admin" "") = ""
              \/ Password (mkAdminServer ":3080" "admin" "") = "")
    by (right; reflexivity).
  split; [exact H|].
  rewrite (proj1 (proj2 (namespace_routes_open_without_credentials
                           (fun _ (m : unit) => m) (fun _ => inl tt)
                           (fun _ (_ : unit) m => (m, @None unit))
                           (fun _ m => (m, None)) (fun m => (m, None))
                           (mkAdminServer ":3080" "admin" "") PostRemove tt
                           (mkContext [("namespace", "ns1")] "" [] [])
                           H ltac:(discriminate)))).
  reflexivity.
Defined.

End HttpApiFacts.

Module BackendFacts.

Import Backend.

Local Open Scope Z_scope.

(** *** The exchange *)

Lemma converse_idle {B} fuel hi (srv : Server B) st b sent received err :
  converse fuel hi srv st b [] sent received err
  = mkOutcome st b sent received err.
Proof. destruct fuel; reflexivity. Qed.

Lemma deliver_nil {B} (srv : Server B) b : deliver srv b [] = (b, []).
Proof. reflexivity. Qed.

Lemma converse_step {B} fuel hi (srv : Server B) st b p inbox sent received err :
  converse (S fuel) hi srv st b (p :: inbox) sent received err
  = let '(st', out, e) := handshake_recv hi st p in
    let '(b', replies) := deliver srv b out in
    converse fuel hi srv st' b' (inbox ++ replies) (sent ++ out)
             (received ++ [p])
             (match err with Some _ => err | None => e end).
Proof. reflexivity. Qed.







(** A handshake through an auth-switch to caching-sha2 with a cache miss,
    on a backend socket without TLS. *)
Example handshake_sha2_full_exchange :
  let hi := mkHandshakeInput 0 (Z.lor 512 ClientSSL) true true false
                             "root" "test" "secret" in
  let bc := mkBackendConfig AuthCachingSha2Password true false
                            "root" "secret" [1; 2] in
  handshake 4 hi (backend bc) (backend_start false) (backend_greeting bc 512)
  = mkOutcome Established (mkBackendState BpAccepted "root" false)
              [PHandshakeResponse 512 "root" "test" AuthCachingSha2Password
                 (Scramble AuthCachingSha2Password [1; 2] "secret");
               PAuthSwitchResponse
                 (Scramble AuthCachingSha2Password [1; 2] "secret");
               PCredential (RSAEncrypted "secret")]
              [BGreeting (backend_greeting bc 512);
               BAuthSwitch AuthCachingSha2Password [1; 2];
               BFullAuthRequest; BOK]
              None.
Proof. vm_compute. reflexivity. Qed.

(** The same backend rejects another password. *)
Example handshake_wrong_password :
  let hi := mkHandshakeInput 0 (Z.lor 512 ClientSSL) true true false
                             "root" "test" "guess" in
  let bc := mkBackendConfig AuthNativePassword false true
                            "root" "secret" [1; 2] in
  let o := handshake 4 hi (backend bc) (backend_start false)
                     (backend_greeting bc 512) in
  o_state o = Failed /\ o_error o = Some (ErrBackend "Access denied") /\
  bp_phase (o_backend o) = BpRejected.
Proof. vm_compute. repeat split; reflexivity. Qed.

(** A fast-auth result outside [AwaitingFastAuthResult] is a protocol
    error. *)
Example fast_auth_result_out_of_place hi :
  handshake_recv hi AwaitingAuthResult BFastAuthSuccess
  = (Failed, [], Some ErrProtocol).
Proof. reflexivity. Qed.

(** C1. Whatever the capability bitsets of the client, the policy and the
    backend, and whatever the backend would answer: if the backend mandates
    TLS and the client-facing session has not completed TLS, the backend
    handshake ends [Failed] with the TLS-required error when it has read the
    greeting, and nothing has been sent to the backend. *)
Theorem handshake_fails_without_client_TLS
        {B : Type} (fuel : nat) (hi : HandshakeInput) (srv : Server B) (b : B)
        (g : Greeting) :
  hi_backendMandatesTLS hi = true ->
  hi_clientTLS hi = false ->
  handshake (S fuel) hi srv b g
  = mkOutcome Failed b [] [BGreeting g] (Some ErrTLSRequired).
Proof.
  intros Hm Ht. unfold handshake. simpl. rewrite Hm, Ht. simpl.
  apply converse_idle.
Qed.

Lemma handshake_fails_without_client_TLS_witness :
  let hi := mkHandshakeInput 0 512 false true true "root" "test" "secret" in
  let bc := mkBackendConfig AuthNativePassword false true "root" "secret" [1; 2] in
  o_sent (handshake 4 hi (backend bc) (backend_start true)
                    (backend_greeting bc (Z.lor 512 ClientSSL))) = []
  /\ o_error (handshake 4 hi (backend bc) (backend_start true)
                        (backend_greeting bc (Z.lor 512 ClientSSL)))
     = Some ErrTLSRequired.
Proof.
  cbv zeta.
  rewrite (handshake_fails_without_client_TLS 3
             (mkHandshakeInput 0 512 false true true "root" "test" "secret")
             (backend (mkBackendConfig AuthNativePassword false true
                                       "root" "secret" [1; 2]))
             (backend_start true)
             (backend_greeting (mkBackendConfig AuthNativePassword false true
                                                "root" "secret" [1; 2])
                               (Z.lor 512 ClientSSL))
             eq_refl eq_refl).
  split; reflexivity.
Defined.

(** *** Plugin pairings *)

#[local] Arguments check_scramble : simpl never.
#[local] Arguments String.eqb : simpl never.

Lemma check_scramble_own bc :
  check_scramble bc (Scramble (bc_authPlugin bc) (bc_salt bc) (bc_cred bc)) = true.
Proof. unfold check_scramble. now apply bool_decide_eq_true. Qed.

Lemma check_scramble_spec bc plugin salt cred :
  check_scramble bc (Scramble plugin salt cred) = true
  <-> plugin = bc_authPlugin bc /\ salt = bc_salt bc /\ cred = bc_cred bc.
Proof.
  unfold check_scramble. rewrite bool_decide_eq_true. split.
  - intros [= -> -> ->]. now repeat split.
  - intros (-> & -> & ->). reflexivity.
Qed.

Lemma client_handshake_accepted px cl cred :
  px_verify px (cl_user cl) (client_answer cl (px_authPlugin px) (px_salt px))
  = Some cred ->
  client_handshake px cl
  = (Some cred,
     CGreeting (px_capability px) (px_salt px) (px_authPlugin px)
     :: (if decide (cl_authPlugin cl = px_authPlugin px) then []
         else [CAuthSwitch (px_authPlugin px) (px_salt px)])).
Proof.
  intros H. unfold client_handshake.
  destruct (decide (cl_authPlugin cl = px_authPlugin px)) as [E|E];
    [rewrite E|]; rewrite H; reflexivity.
Qed.

(** Running an exchange with the backend that follows the protocol. *)
Ltac run_exchange Hown :=
  repeat first
    [ rewrite converse_step
    | rewrite converse_idle
    | rewrite Hown
    | rewrite String.eqb_refl
    | progress unfold verdict, backend_login
    | progress cbn -[converse check_scramble String.eqb] ].

(** The handshake with a backend that follows the protocol, when the
    session has the account of the backend. *)
Lemma handshake_with_backend fuel hi bc capability :
  hi_backendMandatesTLS hi && negb (hi_clientTLS hi) = false ->
  hi_user hi = bc_user bc -> hi_cred hi = bc_cred bc ->
  exists o,
    handshake (4 + fuel) hi (backend bc) (backend_start (hi_backendTLS hi))
              (backend_greeting bc capability) = o /\
    o_state o = Established /\ o_error o = None /\
    o_backend o = mkBackendState BpAccepted (hi_user hi) (hi_backendTLS hi) /\
    head (o_sent o)
    = Some (PHandshakeResponse
              (offered_capability hi (backend_greeting bc capability))
              (hi_user hi) (hi_db hi) (bc_authPlugin bc)
              (Scramble (bc_authPlugin bc) (bc_salt bc) (bc_cred bc))) /\
    head (o_received o) = Some (BGreeting (backend_greeting bc capability)) /\
    last (o_received o) = Some BOK /\
    (bc_switchAuth bc = true ->
     BAuthSwitch (bc_authPlugin bc) (bc_salt bc) ∈ o_received o).
Proof.
  intros Hgate Hu Hc.
  pose proof (check_scramble_own bc) as Hown.
  destruct hi as [pol ccap ctls mand btls user db cred].
  destruct bc as [bp sw hit bu bcred bsalt]. simpl in *. subst bu bcred.
  unfold handshake, backend_start.
  destruct sw, bp, hit, btls; eexists;
    (split; [run_exchange Hown; rewrite ?Hgate; run_exchange Hown; reflexivity|]);
    cbn; repeat split; try reflexivity; try discriminate;
    intros _; apply list_elem_of_In; simpl; tauto.
Qed.

(** C6, as amended. For each plugin the client answers with, each plugin
    the proxy is configured with, each plugin of the backend, with or
    without an auth-switch asked for by the backend and with or without a
    caching-sha2 cache hit: when the policy accepts the client's answer, the
    credential of the session is the one of the backend's account, and the
    TLS rule of C1 does not apply, authentication ends with OK to the
    client, the proxy's handshake [Established] and the backend having
    accepted the login. The handshake response carries the backend's plugin
    and a scramble made for that plugin from the backend's salt, and the
    backend's last word is OK. *)
Theorem authenticate_every_plugin_pairing
        (fuel : nat) (px : ProxyConfig) (cl : ClientConfig)
        (bc : BackendConfig) (capability : Z) :
  px_verify px (cl_user cl) (client_answer cl (px_authPlugin px) (px_salt px))
  = Some (bc_cred bc) ->
  cl_user cl = bc_user bc ->
  px_backendMandatesTLS px = false \/ cl_tls cl = true ->
  let r := authenticate (4 + fuel) px cl (backend bc)
                        (backend_start (px_backendTLS px))
                        (backend_greeting bc capability) in
  r.1 = CGreeting (px_capability px) (px_salt px) (px_authPlugin px)
        :: (if decide (cl_authPlugin cl = px_authPlugin px) then []
            else [CAuthSwitch (px_authPlugin px) (px_salt px)])
        ++ [COK] /\
  exists o,
    r.2 = Some o /\
    o_state o = Established /\ o_error o = None /\
    o_backend o = mkBackendState BpAccepted (cl_user cl) (px_backendTLS px) /\
    head (o_sent o)
    = Some (PHandshakeResponse
              (Z.land (Z.lor (px_policyCapability px) (cl_capability cl))
                      capability)
              (cl_user cl) (cl_db cl) (bc_authPlugin bc)
              (Scramble (bc_authPlugin bc) (bc_salt bc) (bc_cred bc))) /\
    head (o_received o) = Some (BGreeting (backend_greeting bc capability)) /\
    last (o_received o) = Some BOK /\
    (bc_switchAuth bc = true ->
     BAuthSwitch (bc_authPlugin bc) (bc_salt bc) ∈ o_received o).
Proof.
  intros Hacc Hu Htls. cbv zeta.
  assert (Hgate : px_backendMandatesTLS px && negb (cl_tls cl) = false).
  { destruct Htls as [-> | ->]; [reflexivity|apply andb_false_r]. }
  destruct (handshake_with_backend fuel (handshake_input px cl (bc_cred bc))
              bc capability Hgate Hu eq_refl)
    as (o & Ho & Hst & Herr & Hb & Hs & Hr1 & Hr2 & Hsw).
  unfold authenticate. rewrite (client_handshake_accepted px cl _ Hacc).
  simpl hi_backendTLS in Ho. rewrite Ho. simpl. rewrite Hst. split.
  - reflexivity.
  - exists o. repeat split; assumption.
Qed.

Lemma authenticate_every_plugin_pairing_witness :
  let px := mkProxyConfig (Z.lor 512 2048) AuthNativePassword [3; 4] 0
                          (fun user _ => if (user =? "root")%string
                                         then Some "secret"%string else None)
                          true false in
  let cl := mkClientConfig (Z.lor 512 2048) AuthCachingSha2Password true
                           "root" "test" "secret" in
  let bc := mkBackendConfig AuthCachingSha2Password true false
                            "root" "secret" [1; 2] in
  (authenticate 4 px cl (backend bc) (backend_start false)
                (backend_greeting bc (Z.lor 512 2048))).1
  = [CGreeting (Z.lor 512 2048) [3; 4] AuthNativePassword;
     CAuthSwitch AuthNativePassword [3; 4]; COK].
Proof.
  cbv zeta.
  exact (proj1 (authenticate_every_plugin_pairing 0
           (mkProxyConfig (Z.lor 512 2048) AuthNativePassword [3; 4] 0
                          (fun user _ => if (user =? "root")%string
                                         then Some "secret"%string else None)
                          true false)
           (mkClientConfig (Z.lor 512 2048) AuthCachingSha2Password true
                           "root" "test" "secret")
           (mkBackendConfig AuthCachingSha2Password true false
                            "root" "secret" [1; 2])
           (Z.lor 512 2048) eq_refl eq_refl (or_intror eq_refl))).
Defined.

(** C6, as stated, fails: with matching credentials and every plugin
    pairing, authentication does not complete when the backend mandates TLS
    and the client-facing session has not completed TLS; the client is told
    so and nothing is sent to the backend. *)
Lemma authentication_stopped_by_the_TLS_rule :
  let px := mkProxyConfig (Z.lor 512 2048) AuthNativePassword [3; 4] 0
                          (fun user _ => if (user =? "root")%string
                                         then Some "secret"%string else None)
                          true false in
  let cl := mkClientConfig 512 AuthNativePassword false
                           "root" "test" "secret" in
  let bc := mkBackendConfig AuthNativePassword false true
                            "root" "secret" [1; 2] in
  px_verify px (cl_user cl) (client_answer cl (px_authPlugin px) (px_salt px))
  = Some (bc_cred bc) /\
  cl_user cl = bc_user bc /\
  authenticate 4 px cl (backend bc) (backend_start false)
               (backend_greeting bc (Z.lor 512 2048))
  = ([CGreeting (Z.lor 512 2048) [3; 4] AuthNativePassword;
      CErr "TLS required"],
     Some (mkOutcome Failed (backend_start false) []
                     [BGreeting (backend_greeting bc (Z.lor 512 2048))]
                     (Some ErrTLSRequired))).
Proof. cbv zeta. repeat split. Qed.

(** *** Second handshake *)









(** The wrong password of the witness is found out after an auth-switch and
    the full exchange of caching-sha2: the backend's error comes last. *)
Example second_handshake_wrong_password_after_switch :
  let bc := mkBackendConfig AuthCachingSha2Password true false
                            "root" "secret" [1; 2] in
  let r := second_handshake 3 (backend bc)
                            (mkBackendState BpAccepted "root" true) [1; 2]
                            idle_session
                            (ComChangeUser "root" "test" "guess") in
  o_received r.1.2
  = [BAuthSwitch AuthCachingSha2Password [1; 2]; BFullAuthRequest;
     BErr "Access denied"] /\
  e_toBackend r.2
  = [(5%nat, PChangeUser "root" "test" AuthNativePassword
               (Scramble AuthNativePassword [1; 2] "guess"));
     (5%nat, PAuthSwitchResponse (Scramble AuthCachingSha2Password [1; 2] "guess"));
     (5%nat, PCredential (OverTLS "guess"))] /\
  e_toClient r.2 = [CErr "Access denied"].
Proof. vm_compute. repeat split. Qed.

(** *** Redirection *)









(** A redirection that succeeds: the reference is swapped and the old
    socket closed. *)
Example redirection_success :
  let fresh := mkBackendSession 6 (Z.lor 512 2048) AuthNativePassword true
                                "root" "test" Established false "" in
  let r := redirect_run [RedirectRequested "10.0.0.2:4000";
                         TargetHandshakeDone (TargetReady fresh)]
                        idle_session 0 in
  bs_socket (s_backend r.1.1) = 6%nat /\
  concat (e_closed <$> r.2) = [5%nat] /\
  concat (e_toCaller <$> r.2) = [Redirected "10.0.0.2:4000"].
Proof. vm_compute. repeat split. Qed.

End BackendFacts.

(** * Further properties of the SQL server *)

Module SQLServerExtra.

Import Uint64 Uint64Facts SQLServer SQLServerFacts.

Local Open Scope Z_scope.

#[local] Arguments wrap : simpl never.
#[local] Arguments incr : simpl never.

Lemma closing_house_reachable : reachable false 2 closing_house.
Proof.
  eapply reachable_from_trans; [exact full_house_reachable|].
  exists [CloseListener None; CloseClients (fun _ => None)]. eexists.
  vm_compute. reflexivity.
Qed.

(** *** The shape of the server state *)

Lemma entries_carry_id_step l w w' acts :
  0 <= connID (mu w) < modulus ->
  entries_carry_id w -> step l w = Some (w', acts) -> entries_carry_id w'.
Proof.
  unfold entries_carry_id. intros Hc [Hreg Hrun] H.
  step_cases H; try (split; assumption).
  - split; [assumption|]. constructor; [exact I|assumption].
  - enter_cases. split; [assumption|]. apply Forall_insert; [assumption|exact I].
  - enter_cases. split.
    + intros id cc. destruct (decide (connID (mu w) = id)) as [<-|Hne].
      * rewrite lookup_insert_eq. intros [= <-]. split; [reflexivity|exact Hc].
      * rewrite lookup_insert_ne by exact Hne. apply Hreg.
    + apply Forall_insert; [assumption|reflexivity].
  - split; [assumption|]. apply Forall_insert; [assumption|].
    exact (Forall_lookup_1 _ _ _ _ Hrun E).
  - leave_cases. split.
    + intros id' cc'. destruct (decide (id = id')) as [<-|Hne].
      * rewrite lookup_delete_eq. discriminate.
      * rewrite lookup_delete_ne by exact Hne. apply Hreg.
    + apply Forall_insert; [assumption|].
      exact (Forall_lookup_1 _ _ _ _ Hrun E).
  - split; [assumption|]. now apply Forall_delete.
  - split; [assumption|]. now apply Forall_delete.
Qed.

(** X1. In every reachable state the configuration is the one
    [NewSQLServer] was given, the counter is a [uint64], and every
    connection in the registry, and every handler past line 127, holds the
    id it is stored under. *)
Theorem server_state_well_formed keepAlive maxConns w :
  reachable keepAlive maxConns w ->
  tcpKeepAlive (mu w) = keepAlive /\
  maxConnections (mu w) = wrap maxConns /\
  0 <= connID (mu w) < modulus /\
  (forall id cc, clients (mu w) !! id = Some cc ->
                 cc_connID cc = id /\ 0 <= id < modulus) /\
  Forall handler_carries_id (handlers w).
Proof.
  intros Hr.
  assert (Hcnt : 0 <= connID (mu w) < modulus).
  { destruct (ids_in_order_reachable _ _ _ Hr) as [-> _]. apply wrap_range. }
  assert (H : (tcpKeepAlive (mu w) = keepAlive /\
               maxConnections (mu w) = wrap maxConns) /\
              (0 <= connID (mu w) < modulus /\ entries_carry_id w)).
  { revert w Hr Hcnt. intros w Hr _. revert w Hr. apply reachable_invariant.
    - split; [split; reflexivity|]. split; [unfold modulus; simpl; lia|].
      split; [|constructor]. simpl. intros id cc.
      rewrite lookup_empty. discriminate.
    - intros l w w' acts [[Hk Hm] [Hc He]] H. split; [|split].
      + step_cases H; try (split; congruence).
        * enter_cases. split; congruence.
        * enter_cases. split; congruence.
        * leave_cases. split; congruence.
      + step_cases H; try assumption.
        * enter_cases. assumption.
        * enter_cases. apply wrap_range.
        * leave_cases. assumption.
      + eapply entries_carry_id_step; eauto. }
  destruct H as [[Hk Hm] [_ [He1 He2]]].
  split; [exact Hk|]. split; [exact Hm|]. split; [exact Hcnt|].
  split; [exact He1|exact He2].
Qed.

Lemma server_state_well_formed_witness :
  reachable false 2 full_house /\
  maxConnections (mu full_house) = 2 /\
  Forall handler_carries_id (handlers full_house).
Proof.
  pose proof (server_state_well_formed false 2 full_house full_house_reachable)
    as (_ & Hm & _ & _ & Hrun).
  split; [exact full_house_reachable|]. split; [exact Hm|exact Hrun].
Defined.

(** *** Registered connections and the limit *)

Lemma registered_ids_sublist (l : list handler) :
  (omap registration l).*1 `sublist_of` omap handler_id l.
Proof.
  induction l as [|h l IH]; [constructor|].
  destruct h; simpl; try exact IH.
  - now apply sublist_skip.
  - now apply sublist_skip.
  - now apply sublist_cons.
Qed.

Lemma running_sublist (l : list handler) :
  omap in_Run l `sublist_of` omap registration l.
Proof.
  induction l as [|h l IH]; [constructor|].
  destruct h; simpl; try exact IH.
  - now apply sublist_cons.
  - now apply sublist_skip.
Qed.

Lemma registry_is_list_to_map w :
  registry_is_live w ->
  NoDup (registered w).*1 /\ clients (mu w) = list_to_map (registered w).
Proof.
  intros (Hnd & Hreg & _).
  assert (Hnd' : NoDup (registered w).*1).
  { eapply sublist_NoDup; [exact Hnd|apply registered_ids_sublist]. }
  split; [exact Hnd'|]. apply map_eq. intros i.
  destruct (clients (mu w) !! i) as [cc|] eqn:E.
  - symmetry. apply elem_of_list_to_map_1; [exact Hnd'|]. now apply Hreg.
  - destruct (list_to_map (registered w) !! i) as [cc|] eqn:E'; [|reflexivity].
    apply elem_of_list_to_map_2 in E'. apply Hreg in E'. congruence.
Qed.

(** X2. As long as the id counter has not wrapped, the count that [onConn]
    compares with [maxConnections] is the number of handlers between their
    registration (line 126) and the delete of their deferred function
    (line 134); the handlers inside [clientConn.Run] are among them, so
    with a nonzero limit no more than [maxConnections] connections are
    being run at a time. *)
Theorem live_handlers_within_limit keepAlive maxConns w :
  reachable keepAlive maxConns w ->
  Z.of_nat (length (issued w)) <= modulus ->
  size (clients (mu w)) = length (registered w) /\
  running w `sublist_of` registered w /\
  (maxConnections (mu w) <> 0 ->
   Z.of_nat (length (running w)) <= maxConnections (mu w)).
Proof.
  intros Hr Hlen.
  destruct (live_before_wrap_reachable _ _ _ Hr) as [_ Hlive].
  specialize (Hlive Hlen).
  destruct (registry_is_list_to_map w Hlive) as [Hnd Hmap].
  assert (Hsz : size (clients (mu w)) = length (registered w)).
  { rewrite Hmap. now apply map_size_list_to_map. }
  pose proof (running_sublist (handlers w)) as Hsub.
  split; [exact Hsz|]. split; [exact Hsub|]. intros Hne.
  destruct (within_limit_reachable _ _ _ Hr) as [_ Hb].
  specialize (Hb Hne). apply sublist_length in Hsub.
  unfold running, registered in *. lia.
Qed.

Lemma live_handlers_within_limit_witness :
  reachable false 2 full_house /\
  Z.of_nat (length (issued full_house)) <= modulus /\
  Z.of_nat (length (running full_house)) <= maxConnections (mu full_house).
Proof.
  assert (Hlen : Z.of_nat (length (issued full_house)) <= modulus)
    by (vm_compute; discriminate).
  split; [exact full_house_reachable|]. split; [exact Hlen|].
  apply (proj2 (proj2 (live_handlers_within_limit false 2 full_house
                         full_house_reachable Hlen))).
  vm_compute. discriminate.
Defined.

(** *** The loop of [Close] *)

(** X3. The loop of [Close] calls [Close] on every connection it ranges
    over, once and in order, whether or not earlier ones failed, and the
    errors it hands on are those it was given followed by every failure, in
    order: none is dropped and none is added. *)
Theorem Close_clients_closes_all_and_keeps_every_error
        (result : ClientConnection -> option error)
        (cs : list ClientConnection) (errs : list error) :
  (Close_clients result cs errs).2 = ClientClose <$> cs /\
  (Close_clients result cs errs).1 = errs ++ omap result cs /\
  length (Close_clients result cs errs).1
  = (length errs + length (filter (fun c => is_Some (result c)) cs))%nat /\
  ((Close_clients result cs errs).1 = errs <->
   Forall (fun c => result c = None) cs).
Proof.
  rewrite Close_clients_spec. simpl. split; [reflexivity|].
  split; [reflexivity|]. split.
  - rewrite length_app. f_equal.
    induction cs as [|c cs IH]; [reflexivity|]. simpl.
    destruct (result c) eqn:E; rewrite filter_cons.
    + rewrite decide_True by (rewrite E; eauto). simpl. f_equal. exact IH.
    + rewrite decide_False by (rewrite E; intros [? ?]; discriminate).
      exact IH.
  - split.
    + intros H. assert (Hn : omap result cs = []).
      { apply (app_inv_head errs). now rewrite app_nil_r. }
      clear H. induction cs as [|c cs IH]; [constructor|].
      simpl in Hn. destruct (result c) eqn:E; [discriminate|].
      constructor; auto.
    + intros H. induction H as [|c cs Hc _ IH]; simpl.
      * now rewrite app_nil_r.
      * now rewrite Hc.
Qed.

(** *** After the accept loop has ended *)

Lemma listener_closed_by_Close keepAlive maxConns w :
  reachable keepAlive maxConns w ->
  (closing w <> ClNotCalled <-> listenerOpen w = false).
Proof.
  revert w. apply reachable_invariant.
  - simpl. split; [congruence|discriminate].
  - intros l w w' acts Hw H. step_cases H; try exact Hw.
    + split; [reflexivity|discriminate].
    + split; [intros _|discriminate]. apply Hw. discriminate.
    + split; [intros _|discriminate]. apply Hw. discriminate.
Qed.

(** Once the accept loop has ended and the handlers are gone, nothing
    starts a handler again. *)
Lemma no_more_accepts_step l w w' acts :
  no_more_accepts w -> handlers w = [] -> step l w = Some (w', acts) ->
  no_more_accepts w' /\ handlers w' = [] /\
  (runLoop w = AccReturned -> runLoop w' = AccReturned) /\
  Forall (fun a => writes_protocol_bytes a = false) acts.
Proof.
  unfold no_more_accepts. intros Hn Hh H. destruct l; unfold step in H;
    rewrite ?Hh in H; try discriminate.
  - destruct (runLoop w) eqn:Er; try discriminate.
    destruct (listenerOpen w) eqn:El; [|discriminate].
    destruct Hn as [Hn|[Hn _]]; discriminate.
  - destruct (runLoop w) eqn:Er; try discriminate. injection H as <- <-.
    simpl. split; [now left|]. repeat split; auto.
  - destruct (runLoop w) eqn:Er; try discriminate.
    destruct (wg w); [|discriminate]. injection H as <- <-.
    simpl. split; [now left|]. repeat split; auto.
  - destruct (runLoop w) eqn:Er; try discriminate.
    destruct Hn as [Hn|[_ Hn]]; discriminate.
  - destruct (closing w); try discriminate. injection H as <- <-. simpl.
    split.
    + destruct Hn as [Hn|[_ Hn]]; [now left|right; now split].
    + split; [auto|]. split; [auto|]. destruct err; repeat constructor.
  - destruct (closing w); try discriminate.
    rewrite Close_clients_spec in H. injection H as <- <-. simpl.
    split; [exact Hn|]. split; [auto|]. split; [auto|].
    constructor; [reflexivity|]. apply Forall_app. split; [|repeat constructor].
    apply Forall_fmap. apply Forall_forall. reflexivity.
  - destruct (closing w); try discriminate.
    destruct (wg w); [|discriminate]. injection H as <- <-. simpl.
    split; [exact Hn|]. split; [auto|]. split; [auto|].
    repeat constructor.
Qed.

Lemma quiet_after_accepts ls :
  forall w w' acts,
    no_more_accepts w -> handlers w = [] ->
    exec ls w = Some (w', acts) ->
    handlers w' = [] /\
    (runLoop w = AccReturned -> runLoop w' = AccReturned) /\
    Forall (fun a => writes_protocol_bytes a = false) acts.
Proof.
  induction ls as [|l ls IH]; intros w w' acts Hn Hh H; simpl in H.
  - injection H as <- <-. repeat split; auto.
  - destruct (step l w) as [[w1 a1]|] eqn:E; [|discriminate].
    destruct (exec ls w1) as [[w2 a2]|] eqn:E'; [|discriminate].
    injection H as <- <-.
    destruct (no_more_accepts_step _ _ _ _ Hn Hh E) as (Hn1 & Hh1 & Hr1 & Hq).
    destruct (IH _ _ _ Hn1 Hh1 E') as (Hh2 & Hr2 & Hq2).
    repeat split; auto. apply Forall_app. split; auto.
Qed.

(** X4. If no accepted connection is waiting for line 102 when [Close]
    comes out of [s.wg.Wait()], the shutdown is clean: whatever happens
    afterwards, no handler is started, none is left, and no client
    connection is run. *)
Theorem Close_is_final_without_pending_accept
        keepAlive maxConns w w1 acts1 ls w' acts :
  reachable keepAlive maxConns w ->
  (forall c, runLoop w <> AccPending c) ->
  step CloseWait w = Some (w1, acts1) ->
  exec ls w1 = Some (w', acts) ->
  handlers w' = [] /\
  Forall (fun a => writes_protocol_bytes a = false) acts.
Proof.
  intros Hr Hp H1 H.
  destruct (Close_waits_for_started_handlers _ _ _ _ _ Hr H1)
    as (Hh & errs & Hc & _).
  assert (Hl : listenerOpen w = false).
  { apply (listener_closed_by_Close _ _ _ Hr). rewrite Hc. discriminate. }
  assert (Hn : no_more_accepts w1).
  { unfold step in H1. rewrite Hc in H1. destruct (wg w); [|discriminate].
    injection H1 as <- _. unfold no_more_accepts. simpl.
    destruct (runLoop w) as [|c|]; [right; now split|now destruct (Hp c)|now left]. }
  destruct (quiet_after_accepts ls w1 w' acts Hn Hh H) as (Hh' & _ & Hq).
  now split.
Qed.

Lemma Close_is_final_without_pending_accept_witness :
  reachable false 2 closing_house /\
  exists w1 acts1,
    exec [Leave 0; Exit 0; Leave 0; Exit 0] closing_house = Some (w1, acts1) /\
    forall ls w' acts,
      exec (CloseWait :: ls) w1 = Some (w', acts) ->
      handlers w' = [].
Proof.
  split; [exact closing_house_reachable|].
  assert (Hex : exists w1 acts1,
             exec [Leave 0; Exit 0; Leave 0; Exit 0] closing_house
             = Some (w1, acts1) /\
             forall c, runLoop w1 <> AccPending c).
  { do 2 eexists. split; [vm_compute; reflexivity|].
    intros c. vm_compute. discriminate. }
  destruct Hex as (w1 & acts1 & Hex & Hp).
  exists w1, acts1. split; [exact Hex|].
  intros ls w' acts H.
  apply exec_cons_inv in H as (w2 & a2 & a3 & E & E' & _).
  assert (Hr1 : reachable false 2 w1).
  { eapply reachable_from_trans; [exact closing_house_reachable|].
    now exists [Leave 0; Exit 0; Leave 0; Exit 0], acts1. }
  exact (proj1 (Close_is_final_without_pending_accept
                  false 2 w1 w2 a2 ls w' a3 Hr1 Hp E E')).
Defined.

(** X5. [Run] leaves through the [ctx.Done()] branch only when every
    handler it started has returned, and from then on no handler is
    started or left and no client connection is run. *)
Theorem Run_returns_on_cancel_after_all_handlers
        keepAlive maxConns w w1 acts1 ls w' acts :
  reachable keepAlive maxConns w ->
  step CtxDone w = Some (w1, acts1) ->
  (handlers w = [] /\ runLoop w1 = AccReturned /\ mu w1 = mu w) /\
  (exec ls w1 = Some (w', acts) ->
   handlers w' = [] /\ runLoop w' = AccReturned /\
   Forall (fun a => writes_protocol_bytes a = false) acts).
Proof.
  intros Hr H1.
  pose proof (wg_counts_handlers_reachable _ _ _ Hr) as Hwg.
  unfold wg_counts_handlers in Hwg. unfold step in H1.
  destruct (runLoop w); try discriminate.
  destruct (wg w) eqn:Ew; [|discriminate]. injection H1 as <- <-. simpl.
  assert (Hh : handlers w = []) by (destruct (handlers w); [easy|simpl in Hwg; lia]).
  split; [repeat split; assumption|]. intros H.
  set (w1 := mkWorld _ _ _ _ _ _ _) in H.
  assert (Hn : no_more_accepts w1) by now left.
  destruct (quiet_after_accepts ls w1 w' acts Hn Hh H) as (Hh' & Hr' & Hq).
  repeat split; auto.
Qed.

Lemma Run_returns_on_cancel_after_all_handlers_witness :
  reachable false 2 after_hours /\
  issued after_hours = [0; 1] /\
  forall ls w' acts,
    exec (CtxDone :: ls) after_hours = Some (w', acts) ->
    handlers w' = [] /\ runLoop w' = AccReturned.
Proof.
  split; [exact after_hours_reachable|]. split; [reflexivity|].
  intros ls w' acts H.
  apply exec_cons_inv in H as (w2 & a2 & a3 & E & E' & _).
  destruct (proj2 (Run_returns_on_cancel_after_all_handlers
                     false 2 _ w2 a2 ls w' a3 after_hours_reachable E) E')
    as (Hh & Hr & _).
  split; [exact Hh|exact Hr].
Defined.

(** *** The lock *)

(** X6. Along every schedule, from any state, the critical sections of
    [s.mu] do not overlap, the registry is written only inside one, and the
    lock is released at the end: every path of [onConn] and [Close] that
    takes the lock gives it back, the early return of a rejected connection
    included. *)
Theorem server_traces_respect_the_lock ls w w' acts :
  exec ls w = Some (w', acts) ->
  well_locked false acts = true /\
  count_occ action_eq_dec acts MuLock = count_occ action_eq_dec acts MuUnlock.
Proof.
  intros H. pose proof (exec_well_locked ls w w' acts H) as Hl.
  split; [exact Hl|]. clear H.
  enough (Hg : forall held, well_locked held acts = true ->
                 ((if held then 1 else 0) + count_occ action_eq_dec acts MuLock
                  = count_occ action_eq_dec acts MuUnlock)%nat)
    by exact (Hg false Hl).
  clear Hl. induction acts as [|a acts IH]; intros held Hl.
  - destruct held; [discriminate|reflexivity].
  - destruct a; simpl in Hl.
    + apply andb_prop in Hl as [Hh Hl]. destruct held; [discriminate|].
      rewrite count_occ_cons_eq by reflexivity.
      rewrite count_occ_cons_neq by discriminate.
      specialize (IH true Hl). simpl in *. lia.
    + apply andb_prop in Hl as [Hh Hl]. destruct held; [|discriminate].
      rewrite count_occ_cons_neq by discriminate.
      rewrite count_occ_cons_eq by reflexivity.
      specialize (IH false Hl). simpl in *. lia.
    + apply andb_prop in Hl as [Hh Hl].
      rewrite !count_occ_cons_neq by discriminate. now apply IH.
    + apply andb_prop in Hl as [Hh Hl].
      rewrite !count_occ_cons_neq by discriminate. now apply IH.
    + rewrite !count_occ_cons_neq by discriminate. now apply IH.
    + rewrite !count_occ_cons_neq by discriminate. now apply IH.
    + rewrite !count_occ_cons_neq by discriminate. now apply IH.
    + rewrite !count_occ_cons_neq by discriminate. now apply IH.
    + rewrite !count_occ_cons_neq by discriminate. now apply IH.
    + rewrite !count_occ_cons_neq by discriminate. now apply IH.
    + rewrite !count_occ_cons_neq by discriminate. now apply IH.
    + rewrite !count_occ_cons_neq by discriminate. now apply IH.
Qed.

Lemma server_traces_respect_the_lock_witness :
  exists w' acts,
    exec (full_house_schedule ++ [Leave 0; Exit 0]) (NewSQLServer false 2)
    = Some (w', acts) /\
    well_locked false acts = true.
Proof.
  assert (H : exists w' acts,
             exec (full_house_schedule ++ [Leave 0; Exit 0])
                  (NewSQLServer false 2) = Some (w', acts))
    by (do 2 eexists; vm_compute; reflexivity).
  destruct H as (w' & acts & H). exists w', acts. split; [exact H|].
  exact (proj1 (server_traces_respect_the_lock _ _ _ _ H)).
Defined.

(** *** Shutdown always can finish *)

Lemma handler_advances w h hs :
  handlers w = h :: hs ->
  exists l w1 a1,
    handler_step l = true /\ step l w = Some (w1, a1) /\
    closing w1 = closing w /\
    (all_steps_left (handlers w1)
     < all_steps_left (handlers w))%nat.
Proof.
  intros Hh. destruct h as [c|c|ka id cc|id cc|id cc].
  - exists (Enter 0). unfold step. rewrite Hh. simpl.
    destruct (onConn_enter c (mu w)) as [[mu' [|id cc]] a];
      do 2 eexists; (split; [reflexivity|]); (split; [reflexivity|]);
      simpl; split; [reflexivity|lia|reflexivity|lia].
  - exists (Exit 0). unfold step. rewrite Hh. simpl.
    do 2 eexists. split; [reflexivity|]. split; [reflexivity|].
    simpl. split; [reflexivity|lia].
  - exists (Serve 0). unfold step. rewrite Hh. simpl.
    do 2 eexists. split; [reflexivity|]. split; [reflexivity|].
    simpl. split; [reflexivity|lia].
  - exists (Leave 0). unfold step. rewrite Hh. simpl.
    do 2 eexists. split; [reflexivity|]. split; [reflexivity|].
    simpl. split; [reflexivity|lia].
  - exists (Exit 0). unfold step. rewrite Hh. simpl.
    do 2 eexists. split; [reflexivity|]. split; [reflexivity|].
    simpl. split; [reflexivity|lia].
Qed.

Lemma drain_handlers n :
  forall w, (all_steps_left (handlers w) <= n)%nat ->
    exists ls w' acts,
      exec ls w = Some (w', acts) /\ forallb handler_step ls = true /\
      handlers w' = [] /\ closing w' = closing w.
Proof.
  induction n as [|n IH]; intros w Hn.
  - exists [], w, []. destruct (handlers w) as [|h hs] eqn:Hh; [now repeat split|].
    exfalso. simpl in Hn. destruct h; simpl in Hn; lia.
  - destruct (handlers w) as [|h hs] eqn:Hh.
    + exists [], w, []. now repeat split.
    + destruct (handler_advances w h hs Hh) as (l & w1 & a1 & Hl & H1 & Hc1 & Hlt).
      rewrite Hh in Hlt.
      destruct (IH w1) as (ls & w' & acts & H & Hhs & Hh' & Hc'); [simpl in *; lia|].
      exists (l :: ls), w'. eexists. split.
      * eapply exec_cons; [exact H1|exact H].
      * simpl. rewrite Hl, Hhs. repeat split; auto. congruence.
Qed.

(** X7. A shutdown is never stuck on the server's own account: from every
    reachable state in which [Close] waits in [s.wg.Wait()], handler steps
    alone (an accepted connection is handed to its handler, handlers pass
    admission, serve, and return) lead to a state in which [Close]
    returns, with the errors it had collected. *)
Theorem Close_returns_once_handlers_leave keepAlive maxConns w errs :
  reachable keepAlive maxConns w ->
  closing w = ClWaiting errs ->
  exists ls w' acts,
    forallb handler_step ls = true /\
    exec (ls ++ [CloseWait]) w = Some (w', acts) /\
    closing w' = ClReturned (Collect ErrCloseServer errs) /\
    handlers w' = [].
Proof.
  intros Hr Hc.
  assert (H0 : exists ls0 w0 a0,
             exec ls0 w = Some (w0, a0) /\ forallb handler_step ls0 = true /\
             closing w0 = closing w).
  { destruct (runLoop w) as [|c|] eqn:Er.
    - exists [], w, []. repeat split; auto.
    - assert (Hst : exists w0 a0, step Spawn w = Some (w0, a0) /\
                                  closing w0 = closing w).
      { unfold step. rewrite Er. do 2 eexists. split; reflexivity. }
      destruct Hst as (w0 & a0 & Hst & Hc0).
      exists [Spawn], w0, (a0 ++ []). repeat split; auto.
      eapply exec_cons; [exact Hst|reflexivity].
    - exists [], w, []. repeat split; auto. }
  destruct H0 as (ls0 & w0 & a0 & He0 & Hh0 & Hc0).
  destruct (drain_handlers _ w0 (le_n _))
    as (ls1 & w1 & a1 & He1 & Hh1 & Hs1 & Hc1).
  assert (Hr1 : reachable keepAlive maxConns w1).
  { eapply reachable_from_trans; [exact Hr|].
    eapply reachable_from_trans; [exists ls0, a0; exact He0|exists ls1, a1; exact He1]. }
  pose proof (wg_counts_handlers_reachable _ _ _ Hr1) as Hwg.
  unfold wg_counts_handlers in Hwg. rewrite Hs1 in Hwg. simpl in Hwg.
  assert (Hfin : exists w2 a2, step CloseWait w1 = Some (w2, a2) /\
                   closing w2 = ClReturned (Collect ErrCloseServer errs) /\
                   handlers w2 = []).
  { unfold step. rewrite Hc1, Hc0, Hc, Hwg. do 2 eexists.
    split; [reflexivity|]. simpl. split; [reflexivity|assumption]. }
  destruct Hfin as (w2 & a2 & Hfin & Hc2 & Hh2).
  exists (ls0 ++ ls1), w2. eexists. split; [|split].
  - rewrite forallb_app, Hh0, Hh1. reflexivity.
  - rewrite <- app_assoc.
    eapply exec_app; [exact He0|]. eapply exec_app; [exact He1|].
    eapply exec_cons; [exact Hfin|reflexivity].
  - split; assumption.
Qed.

Lemma Close_returns_once_handlers_leave_witness :
  reachable false 2 closing_house /\
  exists ls w',
    forallb handler_step ls = true /\
    (exists acts, exec (ls ++ [CloseWait]) closing_house = Some (w', acts)) /\
    closing w' = ClReturned None.
Proof.
  split; [exact closing_house_reachable|].
  destruct (Close_returns_once_handlers_leave false 2 closing_house []
              closing_house_reachable eq_refl)
    as (ls & w' & acts & Hh & He & Hc & _).
  exists ls, w'. split; [exact Hh|]. split; [now exists acts|exact Hc].
Defined.

End SQLServerExtra.


(** * Further properties of the admin HTTP API *)

Module HttpApiExtra.

Import HttpApi HttpApiFacts.

Local Open Scope string_scope.
Local Open Scope Z_scope.
Local Open Scope list_scope.

(** *** Which routes are guarded *)

Lemma namespaceRouteGroup_cases cfg :
  (User cfg <> "" /\ Password cfg <> "" /\
   namespaceRouteGroup cfg
   = mkRouterGroup "/admin/namespace"
                   [Recovery; BasicAuth [(User cfg, Password cfg)]])
  \/
  ((User cfg = "" \/ Password cfg = "") /\
   namespaceRouteGroup cfg = mkRouterGroup "/admin/namespace" [Recovery]).
Proof.
  unfold namespaceRouteGroup.
  destruct (String.eqb_spec (User cfg) "") as [Hu|Hu].
  - right. split; [now left|]. now rewrite wrapBasicAuthGinMiddleware_absent by now left.
  - destruct (String.eqb_spec (Password cfg) "") as [Hp|Hp].
    + right. split; [now right|].
      now rewrite wrapBasicAuthGinMiddleware_absent by now right.
    + left. split; [exact Hu|]. split; [exact Hp|].
      now rewrite wrapBasicAuthGinMiddleware_installed.
Qed.

(** X8. Of the sixteen routes [CreateHttpApiServer] registers, the only ones
    that can carry basic authentication are the three under
    [/admin/namespace/], and they carry it exactly when the admin user and
    password are both non-empty. The metrics route, the eleven pprof routes
    and [/test/redirect] have [gin.Recovery] only, whatever the
    configuration. *)
Theorem only_namespace_routes_are_guarded (cfg : AdminServer) :
  length (CreateHttpApiServer_routes cfg) = 16%nat /\
  Forall (fun e =>
            guarded e = negb (User cfg =? "")%string
                        && negb (Password cfg =? "")%string
                        && String.prefix "/admin/namespace/" (r_path e))
         (CreateHttpApiServer_routes cfg) /\
  Forall (fun e => String.prefix "/admin/namespace/" (r_path e) = false ->
                   r_chain e = [Recovery])
         (CreateHttpApiServer_routes cfg) /\
  NoDup (r_path <$> CreateHttpApiServer_routes cfg).
Proof.
  unfold CreateHttpApiServer_routes, AddHandlersToRouteGroup.
  destruct (namespaceRouteGroup_cases cfg) as [(Hu & Hp & ->)|(Hcfg & ->)].
  - apply String.eqb_neq in Hu, Hp. rewrite Hu, Hp.
    split; [reflexivity|]. split; [|split].
    + repeat constructor.
    + repeat constructor; discriminate.
    + vm_compute. repeat (constructor; [rewrite ?list_elem_of_In; simpl; intuition discriminate|]).
      constructor.
  - assert (Hb : negb (User cfg =? "")%string && negb (Password cfg =? "")%string
                 = false).
    { destruct Hcfg as [-> | ->]; [reflexivity|apply andb_false_r]. }
    rewrite Hb. split; [reflexivity|]. split; [|split].
    + repeat constructor.
    + repeat constructor.
    + vm_compute. repeat (constructor; [rewrite ?list_elem_of_In; simpl; intuition discriminate|]).
      constructor.
Qed.

Section Handlers.

Context {Mgr NsCfg Err : Type}.
Variable RemoveNamespace : string -> Mgr -> Mgr.
Variable GetNamespace : string -> NsCfg + Err.
Variable PrepareReloadNamespace : string -> NsCfg -> Mgr -> Mgr * option Err.
Variable CommitReloadNamespaces : list string -> Mgr -> Mgr * option Err.
Variable RedirectConnections : Mgr -> Mgr * option Err.

Abbreviation handler :=
  (route_handler RemoveNamespace GetNamespace PrepareReloadNamespace
                 CommitReloadNamespaces RedirectConnections).

Abbreviation outcome_of :=
  (outcome GetNamespace PrepareReloadNamespace CommitReloadNamespaces
           RedirectConnections).

(** X9. With the admin user and password both set, a request to a
    namespace route is handled exactly when its [Authorization] header is
    [Basic ] followed by the base64 encoding of [user:password] for the
    configured account: then the handler runs, with the user set on the
    context; otherwise the request gets the [WWW-Authenticate] header and
    status 401, the handler does not run and the namespace manager is as it
    was. Since the header joins user and password with a colon, a request
    made with another user and password that join to the same text is
    handled as well. The test redirect route is handled whatever the request
    carries. *)
Theorem namespace_routes_demand_the_configured_account
        (cfg : AdminServer) (r : route) (n : Mgr) (c : ginContext) :
  User cfg <> "" -> Password cfg <> "" ->
  (r <> PostTestRedirect ->
   Authorization c = authorizationHeader (User cfg) (Password cfg) ->
   serve (Handlers (route_group cfg r)) (handler r) n c
   = handler r n (SetKey c AuthUserKey (User cfg))) /\
  (r <> PostTestRedirect ->
   Authorization c <> authorizationHeader (User cfg) (Password cfg) ->
   serve (Handlers (route_group cfg r)) (handler r) n c
   = (n, mkContext (Params c) (Authorization c) (Keys c)
                   (Written c ++ [RespHeader "WWW-Authenticate" basicRealm;
                                  RespAbort StatusUnauthorized]))) /\
  (forall user password : string,
      r <> PostTestRedirect ->
      (user ++ ":" ++ password = User cfg ++ ":" ++ Password cfg)%string ->
      Authorization c = authorizationHeader user password ->
      serve (Handlers (route_group cfg r)) (handler r) n c
      = handler r n (SetKey c AuthUserKey (User cfg))) /\
  (r = PostTestRedirect ->
   serve (Handlers (route_group cfg r)) (handler r) n c = handler r n c).
Proof.
  intros Hu Hp.
  assert (Hg : r <> PostTestRedirect ->
               serve (Handlers (route_group cfg r)) (handler r) n c
               = if (authorizationHeader (User cfg) (Password cfg)
                     =? Authorization c)%string
                 then handler r n (SetKey c AuthUserKey (User cfg))
                 else (n, AbortWithHeader c "WWW-Authenticate" basicRealm
                                          StatusUnauthorized)).
  { intros Hr.
    assert (Hh : Handlers (route_group cfg r)
                 = [Recovery; BasicAuth [(User cfg, Password cfg)]]).
    { destruct r; try contradiction;
        unfold route_group, namespaceRouteGroup;
        now rewrite wrapBasicAuthGinMiddleware_installed. }
    rewrite Hh.
    change (serve [Recovery; BasicAuth [(User cfg, Password cfg)]] (handler r) n c)
      with (match searchCredential [(User cfg, Password cfg)] (Authorization c) with
            | Some user => handler r n (SetKey c AuthUserKey user)
            | None => (n, AbortWithHeader c "WWW-Authenticate" basicRealm
                                          StatusUnauthorized)
            end).
    rewrite searchCredential_one. now destruct (_ =? _)%string. }
  split; [|split; [|split]].
  - intros Hr Hc. rewrite (Hg Hr), Hc, String.eqb_refl. reflexivity.
  - intros Hr Hc. rewrite (Hg Hr).
    destruct (String.eqb_spec (authorizationHeader (User cfg) (Password cfg))
                              (Authorization c)) as [E|_]; [congruence|].
    reflexivity.
  - intros user password Hr Hj Hc. rewrite (Hg Hr), Hc.
    unfold authorizationHeader. rewrite Hj, String.eqb_refl. reflexivity.
  - intros ->. reflexivity.
Qed.

(** X10. What a handler does to the namespace manager and what it answers
    depend on the request through the [namespace] parameter alone: not on
    other parameters, on the [Authorization] header, on the keys set on the
    context, or on what has been written. With
    an empty parameter the manager is not called at all. *)
Theorem handlers_depend_on_namespace_only
        (r : route) (n : Mgr) (c c' : ginContext) :
  Param c ParamNamespace = Param c' ParamNamespace ->
  fst (handler r n c) = fst (handler r n c') /\
  outcome_of r n c = outcome_of r n c' /\
  (r <> PostTestRedirect -> Param c ParamNamespace = "" ->
   fst (handler r n c) = n).
Proof.
  intros Hp. split; [|split].
  - destruct r; simpl;
      unfold HandleRemoveNamespace, HandlePrepareReload, HandleCommitReload,
             Redirect; rewrite <- ?Hp.
    + now destruct (_ =? _)%string.
    + destruct (_ =? _)%string; [reflexivity|].
      destruct (GetNamespace _); [|reflexivity].
      now destruct (PrepareReloadNamespace _ _ _) as [? [?|]].
    + destruct (_ =? _)%string; [reflexivity|].
      now destruct (CommitReloadNamespaces _ _) as [? [?|]].
    + now destruct (RedirectConnections _) as [? [?|]].
  - unfold outcome. now rewrite Hp.
  - intros Hr He. destruct r; try contradiction; simpl;
      unfold HandleRemoveNamespace, HandlePrepareReload, HandleCommitReload;
      now rewrite He.
Qed.

End Handlers.

Lemma namespace_routes_demand_the_configured_account_witness :
  let cfg := mkAdminServer ":3080" "ops:x" "secret" in
  let h := route_handler (fun _ (m : nat) => S m) (fun _ => @inr unit unit tt)
                         (fun _ _ m => (m, @None unit))
                         (fun _ m => (m, None)) (fun m => (m, None)) in
  serve (Handlers (route_group cfg PostRemove)) (h PostRemove) 0%nat
        (mkContext [("namespace", "ns1")]
                   (authorizationHeader "ops" "guess") [] [])
  = (0%nat, mkContext [("namespace", "ns1")]
                      (authorizationHeader "ops" "guess") []
                      [RespHeader "WWW-Authenticate" basicRealm; RespAbort 401])
  /\
  serve (Handlers (route_group cfg PostRemove)) (h PostRemove) 0%nat
        (mkContext [("namespace", "ns1")]
                   (authorizationHeader "ops" "x:secret") [] [])
  = (1%nat, mkContext [("namespace", "ns1")]
                      (authorizationHeader "ops" "x:secret") [("user", "ops:x")]
                      [RespJSON 200 [("code", JInt 200);
                                     ("msg", JString "success")]]).
Proof.
  cbv zeta.
  pose proof (fun c =>
    namespace_routes_demand_the_configured_account
      (fun _ (m : nat) => S m) (fun _ => @inr unit unit tt)
      (fun _ _ m => (m, @None unit))
      (fun _ m => (m, None)) (fun m => (m, None))
      (mkAdminServer ":3080" "ops:x" "secret") PostRemove 0%nat c
      ltac:(discriminate) ltac:(discriminate)) as H.
  split.
  - exact (proj1 (proj2 (H (mkContext [("namespace", "ns1")]
                                      (authorizationHeader "ops" "guess") [] [])))
             ltac:(discriminate) ltac:(discriminate)).
  - exact (proj1 (proj2 (proj2 (H (mkContext [("namespace", "ns1")]
                                             (authorizationHeader "ops" "x:secret")
                                             [] []))))
             "ops" "x:secret" ltac:(discriminate) eq_refl eq_refl).
Defined.

Lemma handlers_depend_on_namespace_only_witness :
  let h := route_handler (fun _ (m : nat) => S m) (fun _ => @inr unit unit tt)
                         (fun _ _ m => (m, @None unit))
                         (fun _ m => (m, None)) (fun m => (m, None)) in
  fst (h PostRemove 0%nat (mkContext [("namespace", "ns1")] "" [] []))
  = fst (h PostRemove 0%nat
           (mkContext [("breaker", "b"); ("namespace", "ns1")]
                      (authorizationHeader "admin" "guess")
                      [("user", "admin")] [RespAbort 401])).
Proof.
  cbv zeta.
  exact (proj1 (handlers_depend_on_namespace_only
                  (fun _ (m : nat) => S m) (fun _ => @inr unit unit tt)
                  (fun _ _ m => (m, @None unit))
                  (fun _ m => (m, None)) (fun m => (m, None))
                  PostRemove 0%nat
                  (mkContext [("namespace", "ns1")] "" [] [])
                  (mkContext [("breaker", "b"); ("namespace", "ns1")]
                             (authorizationHeader "admin" "guess")
                             [("user", "admin")] [RespAbort 401])
                  eq_refl)).
Defined.

(** *** [Run] and [Close] of the API server *)

Lemma apiReachable_invariant (P : apiServer -> Prop) :
  P apiInit ->
  (forall l a a', P a -> apiStep l a = Some a' -> P a') ->
  forall a, apiReachable a -> P a.
Proof.
  intros H0 Hstep a [ls H]. revert H. generalize apiInit H0.
  induction ls as [|l ls IH]; intros a0 Ha0 H; simpl in H.
  - now injection H as <-.
  - destruct (apiStep l a0) as [a1|] eqn:E; [|discriminate]. eauto.
Qed.

Lemma api_returned_stays ls :
  forall a a',
    apiRun a = RunReturned -> apiServing a <> SrvDone ->
    apiExec ls a = Some a' ->
    apiRun a' = RunReturned /\ apiServing a' <> SrvDone.
Proof.
  induction ls as [|l ls IH]; intros a a' Ha Hs He; simpl in He.
  - injection He as <-. now split.
  - destruct (apiStep l a) as [a1|] eqn:E; [|discriminate].
    assert (H1 : apiRun a1 = RunReturned /\ apiServing a1 <> SrvDone).
    { unfold apiStep in E. destruct (apiAlive a); [|discriminate].
      simpl in E. rewrite ?Ha in E. destruct l; try discriminate.
      - destruct (apiServing a); try discriminate. injection E as <-.
        simpl. split; [reflexivity|discriminate].
      - destruct (closeChClosed a); injection E as <-; simpl;
          (split; [reflexivity|exact Hs]). }
    destruct H1 as [Ha1 Hs1]. exact (IH a1 a' Ha1 Hs1 He).
Qed.

Lemma api_consistent_reachable a : apiReachable a -> api_consistent a = true.
Proof.
  revert a. apply apiReachable_invariant; [reflexivity|].
  intros l [cc lc r s p] a' Hc H. unfold apiStep, apiAlive in H.
  unfold api_consistent in *. simpl in *.
  destruct p; simpl in H; [discriminate|].
  destruct l, r, s; simpl in H; try discriminate;
    try (destruct cc; simpl in H; try discriminate);
    injection H as <-; simpl in *; try discriminate; try reflexivity;
    try assumption; now destruct lc.
Qed.

Ltac api_facts :=
  repeat split; intros;
  repeat match goal with
         | H : exists _, _ |- _ => destruct H
         | H : _ \/ _ |- _ => destruct H
         | H : False |- _ => destruct H
         end;
  try discriminate; try reflexivity; eauto.

(** X11. Over the life of the API server: [Run] returns only after [Close]
    was called; the listener is closed exactly when [Run] has returned or
    [http.Serve] has; the serving goroutine finishes only when [Run] took
    its error and ended the process, so after a regular shutdown it never
    finishes: it serves, or stays blocked in its send on [errCh]. A second
    [Close] panics. *)
Theorem api_server_lifecycle (a : apiServer) :
  apiReachable a ->
  (apiRun a = RunReturned -> closeChClosed a = true) /\
  (apiListenerClosed a = true <-> apiRun a = RunReturned \/ serve_returned a) /\
  (apiServing a = SrvDone <-> exists e, apiRun a = RunFatal e) /\
  (apiRun a = RunReturned ->
   forall ls a', apiExec ls a = Some a' ->
                 apiRun a' = RunReturned /\ apiServing a' <> SrvDone) /\
  (apiAlive a = true -> closeChClosed a = true ->
   exists a', apiStep ApiClose a = Some a' /\ apiPanicked a' = true).
Proof.
  intros Hr.
  assert (Hinv : (apiRun a = RunReturned -> closeChClosed a = true) /\
                 (apiListenerClosed a = true
                  <-> apiRun a = RunReturned \/ serve_returned a) /\
                 (apiServing a = SrvDone <-> exists e, apiRun a = RunFatal e)).
  { pose proof (api_consistent_reachable a Hr) as Hc.
    destruct a as [cc lc r s p]. unfold api_consistent, serve_returned in *.
    simpl in *. destruct r, s, cc, lc; simpl in Hc; try discriminate Hc;
      api_facts. }
  destruct Hinv as (H1 & H2 & H3).
  split; [exact H1|]. split; [exact H2|]. split; [exact H3|]. split.
  - intros Hret ls a' He.
    apply (api_returned_stays ls a a' Hret); [|exact He].
    intros Hd. apply H3 in Hd as [e Hd]. congruence.
  - intros Hp Hc. unfold apiStep. rewrite Hp, Hc. simpl.
    eexists. split; reflexivity.
Qed.

Lemma api_server_lifecycle_witness :
  apiReachable (mkApiServer true true RunReturned (SrvSending "closed") false) /\
  forall ls a',
    apiExec ls (mkApiServer true true RunReturned (SrvSending "closed") false)
    = Some a' ->
    apiServing a' <> SrvDone.
Proof.
  assert (Hr : apiReachable
                 (mkApiServer true true RunReturned (SrvSending "closed") false)).
  { exists [ApiRun; ApiClose; ApiSelectClose; ApiServeReturns "closed"].
    reflexivity. }
  split; [exact Hr|]. intros ls a' H.
  exact (proj2 (proj1 (proj2 (proj2 (proj2 (api_server_lifecycle _ Hr))))
                  eq_refl ls a' H)).
Defined.

End HttpApiExtra.

(** * Properties of the test configurations *)

Module BackendTestsFacts.

Import Backend BackendTests.

Local Open Scope Z_scope.

(** *** Bits *)

Lemma uint32_high_bits d i : is_uint32 d -> 32 <= i -> Z.testbit d i = false.
Proof.
  intros Hd Hi. rewrite <- (Z.mod_small d (2 ^ 32)) by exact Hd.
  apply Z.mod_pow2_bits_high. lia.
Qed.

Lemma not32_bits x i :
  0 <= i -> Z.testbit (not32 x) i
            = xorb (Z.testbit x i) (if i <? 32 then true else false).
Proof.
  intros Hi. unfold not32. rewrite Z.lxor_spec. f_equal.
  destruct (Z.ltb_spec i 32).
  - apply Z.ones_spec_low. lia.
  - apply Z.ones_spec_high. lia.
Qed.

(** Clearing or setting a flag leaves the other bits of a [uint32] alone. *)
Lemma clear_other_bits d flag i :
  is_uint32 d -> 0 <= i -> Z.testbit flag i = false ->
  Z.testbit (Z.land d (not32 flag)) i = Z.testbit d i.
Proof.
  intros Hd Hi Hf. rewrite Z.land_spec, not32_bits, Hf by exact Hi. simpl.
  destruct (Z.ltb_spec i 32).
  - apply andb_true_r.
  - rewrite uint32_high_bits by assumption. reflexivity.
Qed.

Lemma set_other_bits d flag i :
  Z.testbit flag i = false -> Z.testbit (Z.lor d flag) i = Z.testbit d i.
Proof. intros Hf. rewrite Z.lor_spec, Hf. apply orb_false_r. Qed.

Lemma flag_bit k i : 0 <= k -> Z.testbit (2 ^ k) i = (k =? i).
Proof. intros Hk. now apply Z.pow2_bits_eqb. Qed.

Lemma clear_flag_bit d k :
  0 <= k < 32 -> Z.testbit (Z.land d (not32 (2 ^ k))) k = false.
Proof.
  intros Hk. rewrite Z.land_spec, not32_bits, flag_bit, Z.eqb_refl by lia.
  destruct (Z.ltb_spec k 32); [|lia]. apply andb_false_r.
Qed.

Lemma set_flag_bit d k : 0 <= k -> Z.testbit (Z.lor d (2 ^ k)) k = true.
Proof.
  intros Hk. rewrite Z.lor_spec, flag_bit, Z.eqb_refl by lia. apply orb_true_r.
Qed.

Lemma clear_set_differ d k :
  0 <= k < 32 -> Z.land d (not32 (2 ^ k)) <> Z.lor d (2 ^ k).
Proof.
  intros Hk E. pose proof (clear_flag_bit d k Hk) as H1.
  rewrite E, set_flag_bit in H1 by lia. discriminate.
Qed.

(** *** [TestCapability] *)

Lemma apply_overriders_snoc os o cfg :
  apply_overriders (os ++ [o]) cfg = o (apply_overriders os cfg).
Proof. unfold apply_overriders. now rewrite fold_left_app. Qed.

Lemma TestCapability_overrider d o :
  o ∈ concat (TestCapability_cfgs d) ->
  exists flag v,
    flag ∈ TestCapability_flags /\
    (v = Z.land d (not32 flag) \/ v = Z.lor d flag) /\
    forall cfg, client_capability (tc_client (o cfg)) = v.
Proof.
  unfold TestCapability_cfgs, TestCapability_flags. simpl.
  rewrite !elem_of_cons, elem_of_nil.
  intros [->|[->|[->|[->|[->|[->|[->|[->|[]]]]]]]]].
  - exists ClientProtocol41, (Z.land d (not32 ClientProtocol41)).
    split; [rewrite !elem_of_cons; tauto|]. split; [now left|reflexivity].
  - exists ClientProtocol41, (Z.lor d ClientProtocol41).
    split; [rewrite !elem_of_cons; tauto|]. split; [now right|reflexivity].
  - exists ClientConnectWithDB, (Z.land d (not32 ClientConnectWithDB)).
    split; [rewrite !elem_of_cons; tauto|]. split; [now left|reflexivity].
  - exists ClientConnectWithDB, (Z.lor d ClientConnectWithDB).
    split; [rewrite !elem_of_cons; tauto|]. split; [now right|reflexivity].
  - exists ClientConnectAtts, (Z.land d (not32 ClientConnectAtts)).
    split; [rewrite !elem_of_cons; tauto|]. split; [now left|reflexivity].
  - exists ClientConnectAtts, (Z.lor d ClientConnectAtts).
    split; [rewrite !elem_of_cons; tauto|]. split; [now right|reflexivity].
  - exists ClientSecureConnection, (Z.land d (not32 ClientSecureConnection)).
    split; [rewrite !elem_of_cons; tauto|]. split; [now left|reflexivity].
  - exists ClientSecureConnection, (Z.lor d ClientSecureConnection).
    split; [rewrite !elem_of_cons; tauto|]. split; [now right|reflexivity].
Qed.

(** X12. The overriders of [TestCapability] all assign the client
    capability from the default. So whichever overriders are combined and in
    whatever order they run, the capability the test ends with is the one
    the last overrider assigns by itself, and it differs from the default in
    no bit but that overrider's flag: no combination has two of the four
    flags changed. *)
Theorem TestCapability_keeps_the_last_flag_only
        (d : Z) (os : list cfgOverrider) (o : cfgOverrider) (cfg : testConfig) :
  is_uint32 d ->
  Forall (fun o' => o' ∈ concat (TestCapability_cfgs d)) (os ++ [o]) ->
  client_capability (tc_client (apply_overriders (os ++ [o]) cfg))
  = client_capability (tc_client (o base_config)) /\
  exists flag,
    flag ∈ TestCapability_flags /\
    forall i, 0 <= i -> Z.testbit flag i = false ->
      Z.testbit (client_capability (tc_client (apply_overriders (os ++ [o]) cfg))) i
      = Z.testbit d i.
Proof.
  intros Hd Hall. rewrite Forall_app, Forall_singleton in Hall.
  destruct Hall as [_ Ho].
  destruct (TestCapability_overrider d o Ho) as (flag & v & Hf & Hv & Hcap).
  rewrite apply_overriders_snoc, !Hcap. split; [reflexivity|].
  exists flag. split; [exact Hf|]. intros i Hi Hbit.
  destruct Hv as [-> | ->].
  - now apply clear_other_bits.
  - now apply set_other_bits.
Qed.

Lemma TestCapability_keeps_the_last_flag_only_witness :
  let d := 1607181 in
  let os := [set_client_capability (Z.land d (not32 ClientProtocol41))] in
  let o := set_client_capability (Z.land d (not32 ClientConnectWithDB)) in
  is_uint32 d /\
  Z.testbit (client_capability
               (tc_client (apply_overriders (os ++ [o]) base_config))) 9
  = Z.testbit d 9.
Proof.
  cbv zeta. assert (Hd : is_uint32 1607181) by (unfold is_uint32; lia).
  split; [exact Hd|].
  destruct (TestCapability_keeps_the_last_flag_only
              1607181
              [set_client_capability (Z.land 1607181 (not32 ClientProtocol41))]
              (set_client_capability (Z.land 1607181 (not32 ClientConnectWithDB)))
              base_config Hd) as [Heq _].
  - repeat constructor; simpl; rewrite !elem_of_cons; tauto.
  - rewrite Heq. reflexivity.
Defined.

(** *** [TestTLSConnection] *)

Lemma land_clear_flag d k :
  0 <= k < 32 -> Z.land (Z.land d (not32 (2 ^ k))) (2 ^ k) = 0.
Proof.
  intros Hk. apply Z.bits_inj'. intros i Hi.
  rewrite Z.land_spec, Z.land_spec, Z.bits_0, not32_bits, flag_bit by lia.
  destruct (Z.eqb_spec k i) as [<-|Hne]; simpl.
  - destruct (Z.ltb_spec k 32); [|lia]. now destruct (Z.testbit d k).
  - now destruct (Z.testbit d i), (i <? 32).
Qed.

Lemma land_set_flag d k : 0 <= k -> Z.land (Z.lor d (2 ^ k)) (2 ^ k) = 2 ^ k.
Proof.
  intros Hk. apply Z.bits_inj'. intros i Hi.
  rewrite Z.land_spec, Z.lor_spec.
  now destruct (Z.testbit (2 ^ k) i), (Z.testbit d i).
Qed.

(** X13. In [TestTLSConnection] the client and the backend overriders
    commute, and whether the checker demands an error is decided by the
    backend overrider alone, for every default capability: with the first
    (TLS flag cleared) the test passes only if the proxy's error contains
    "must enable TLS", and a nil error fails it; with the second the checker
    asserts nothing, so the test passes on every outcome. *)
Theorem TestTLSConnection_checks_backend_flag_only
        (dC dB : Z) (cfg : testConfig) (perr : option string)
        (clientSecond backendSecond : bool) :
  let groups := TestTLSConnection_cfgs dC dB in
  let oc := pick clientSecond (nth 0 groups []) in
  let ob := pick backendSecond (nth 1 groups []) in
  apply_overriders [oc; ob] cfg = apply_overriders [ob; oc] cfg /\
  TestTLSConnection_check
    (backend_capability (tc_backend (apply_overriders [oc; ob] cfg))) perr
  = (backendSecond || ErrorContains perr "must enable TLS") /\
  TestTLSConnection_check
    (backend_capability (tc_backend (apply_overriders [oc; ob] cfg))) None
  = backendSecond.
Proof.
  cbv zeta. unfold TestTLSConnection_cfgs, TestTLSConnection_check. simpl nth.
  assert (H0 : Z.land (Z.land dB (not32 ClientSSL)) ClientSSL = 0)
    by (apply (land_clear_flag dB 11); lia).
  assert (H1 : Z.land (Z.lor dB ClientSSL) ClientSSL = ClientSSL)
    by (apply (land_set_flag dB 11); lia).
  destruct clientSecond, backendSecond; simpl; rewrite ?H0, ?H1; simpl;
    repeat split; reflexivity.
Qed.

(** *** [TestAuthPlugin] *)

Lemma TestAuthPlugin_combination d mock cfg b1 b2 b3 b4 b5 b6 :
  apply_overriders
    (combination [b1; b2; b3; b4; b5; b6] (TestAuthPlugin_cfgs d mock)) cfg
  = mkTestConfig
      (mkClientTestConfig
         (if b2 then Z.lor d ClientPluginAuth
          else Z.land d (not32 ClientPluginAuth))
         (if b1 then repeat_x_512 else mock)
         (if b3 then AuthCachingSha2Password else AuthNativePassword)
         (client_attrs (tc_client cfg)))
      (mkBackendTestConfig
         (backend_capability (tc_backend cfg))
         (if b4 then AuthCachingSha2Password else AuthNativePassword)
         (negb b5) (negb b6)).
Proof. destruct b1, b2, b3, b4, b5, b6; reflexivity. Qed.

(** X14. In [TestAuthPlugin] every group writes a field of its own, so the
    sixty-four combinations are sixty-four different configurations,
    provided the mock auth data is not the 512-byte string: two choices that
    lead to the same configuration are the same choice. *)
Theorem TestAuthPlugin_combinations_are_distinct
        (d : Z) (mock : list Z) (cfg : testConfig)
        (b1 b2 b3 b4 b5 b6 c1 c2 c3 c4 c5 c6 : bool) :
  mock <> repeat_x_512 ->
  apply_overriders
    (combination [b1; b2; b3; b4; b5; b6] (TestAuthPlugin_cfgs d mock)) cfg
  = apply_overriders
      (combination [c1; c2; c3; c4; c5; c6] (TestAuthPlugin_cfgs d mock)) cfg ->
  [b1; b2; b3; b4; b5; b6] = [c1; c2; c3; c4; c5; c6].
Proof.
  intros Hmock H.
  pose proof (clear_set_differ d 19 ltac:(lia)) as Hcap.
  change (2 ^ 19) with ClientPluginAuth in Hcap.
  rewrite !TestAuthPlugin_combination in H.
  injection H as H2 H1 H3 H4 H5 H6.
  assert (E1 : b1 = c1) by (destruct b1, c1; simpl in *; congruence).
  assert (E2 : b2 = c2) by (destruct b2, c2; simpl in *; congruence).
  assert (E3 : b3 = c3) by (destruct b3, c3; simpl in *; congruence).
  assert (E4 : b4 = c4) by (destruct b4, c4; simpl in *; congruence).
  assert (E5 : b5 = c5) by (destruct b5, c5; simpl in *; congruence).
  assert (E6 : b6 = c6) by (destruct b6, c6; simpl in *; congruence).
  congruence.
Qed.

Lemma TestAuthPlugin_combinations_are_distinct_witness :
  [1; 2] <> repeat_x_512 /\
  forall b1 c1,
    apply_overriders
      (combination [b1; true; true; true; true; true]
                   (TestAuthPlugin_cfgs 0 [1; 2])) base_config
    = apply_overriders
        (combination [c1; true; true; true; true; true]
                     (TestAuthPlugin_cfgs 0 [1; 2])) base_config ->
    b1 = c1.
Proof.
  assert (Hm : [1; 2] <> repeat_x_512) by discriminate.
  split; [exact Hm|]. intros b1 c1 H.
  pose proof (TestAuthPlugin_combinations_are_distinct
                0 [1; 2] base_config b1 true true true true true
                c1 true true true true true Hm H) as E.
  now injection E.
Defined.

End BackendTestsFacts.
